(** * zOSINFO web page: table rendering, filtering and editing

    A shallow embedding of [script-public.js] and [script-private.js].
    The private script repeats the public one ([loadDataFromFile],
    [formatCellContent], [filterTable] are textually the same) and adds the
    editor; the embedding follows the private script, the public page being
    the states whose [isEditMode] is [false].

    JavaScript strings are modelled by [string], a character standing for
    the code unit of the same number (U+0000 to U+00FF).  On that range
    [toLowerCase] maps one code unit to one code unit and the white space of
    [trim] and [parseInt] is the set 9-13, 32, 160.  Beyond it lower-casing
    depends on the context; the one property that this touches, the
    monotonicity of the filter, is stated on sequences of code units and
    for any lower-casing ([filteredDataW]). *)

From Stdlib Require Import ZArith Ascii String.
From stdpp Require Import base option list strings gmap.

Local Open Scope Z_scope.
Local Open Scope nat_scope.
Set Warnings "-register-all".

(** ** String primitives of the host language *)

Definition nl : ascii := ascii_of_nat 10.
Definition cr : ascii := ascii_of_nat 13.
Definition dquote : ascii := ascii_of_nat 34.
Definition backslash : ascii := ascii_of_nat 92.

Definition str1 (c : ascii) : string := String c EmptyString.

Definition ascii_eqb (a b : ascii) : bool := bool_decide (a = b).

Definition in_range (lo hi n : nat) : bool := (lo <=? n) && (n <=? hi).

(** [String.prototype.toLowerCase] on U+0000 to U+00FF, where it works one
    code unit at a time: A-Z and the Latin-1 capitals U+00C0-U+00DE other
    than the multiplication sign.  ([toLowerCaseW] goes beyond.) *)
Definition lowerChar (c : ascii) : ascii :=
  let n := nat_of_ascii c in
  if in_range 65 90 n || (in_range 192 222 n && negb (n =? 215))
  then ascii_of_nat (n + 32) else c.

Fixpoint toLowerCase (s : string) : string :=
  match s with
  | EmptyString => EmptyString
  | String c t => String (lowerChar c) (toLowerCase t)
  end.

(** White space as [trim] and [parseInt] see it. *)
Definition isWhiteSpace (c : ascii) : bool :=
  let n := nat_of_ascii c in
  in_range 9 13 n || (n =? 32) || (n =? 160).

Fixpoint trimStart (s : string) : string :=
  match s with
  | EmptyString => EmptyString
  | String c t => if isWhiteSpace c then trimStart t else s
  end.

Fixpoint trimEnd (s : string) : string :=
  match s with
  | EmptyString => EmptyString
  | String c t =>
      match trimEnd t with
      | EmptyString => if isWhiteSpace c then EmptyString else str1 c
      | t' => String c t'
      end
  end.

Definition trim (s : string) : string := trimEnd (trimStart s).

(** [s.startsWith(p)] *)
Fixpoint startsWith (p s : string) : bool :=
  match p, s with
  | EmptyString, _ => true
  | String _ _, EmptyString => false
  | String a p', String b s' => ascii_eqb a b && startsWith p' s'
  end.

(** [s.includes(p)] *)
Fixpoint includes (p s : string) : bool :=
  startsWith p s ||
  match s with
  | EmptyString => false
  | String _ t => includes p t
  end.

(** [s.split(/[\r\n]+/)]: the pieces between the maximal runs of CR and LF.
    [inRun] tells that the previous character belonged to such a run. *)
Definition isLineBreak (c : ascii) : bool := ascii_eqb c nl || ascii_eqb c cr.

Fixpoint splitLinesFrom (inRun : bool) (s : string) : list string :=
  match s with
  | EmptyString => [EmptyString]
  | String c t =>
      if isLineBreak c then
        if inRun then splitLinesFrom true t
        else EmptyString :: splitLinesFrom true t
      else
        match splitLinesFrom false t with
        | p :: ps => String c p :: ps
        | [] => [str1 c]
        end
  end.

Definition splitLines (s : string) : list string := splitLinesFrom false s.

(** [l.join(sep)] *)
Fixpoint arrayJoin (sep : string) (l : list string) : string :=
  match l with
  | [] => EmptyString
  | [x] => x
  | x :: rest => x +:+ sep +:+ arrayJoin sep rest
  end.

(** [parseInt(s, 10)]: leading white space, an optional sign, then the
    longest run of decimal digits; [None] is NaN.  [parseInt10] gives the
    integer the digits denote.  [parseInt] returns the Number nearest to
    it, which is that integer as long as it lies within [maxExactInteger]
    (2^53) of zero, and another number or an infinity beyond; it is on the
    same side of 1 in every case.  What is proved of the number read is
    proved within that bound. *)
Definition maxExactInteger : Z := 9007199254740992.

Definition digitValue (c : ascii) : option Z :=
  let n := nat_of_ascii c in
  if in_range 48 57 n then Some (Z.of_nat (n - 48)) else None.

Fixpoint digitsFrom (acc : option Z) (s : string) : option Z :=
  match s with
  | EmptyString => acc
  | String c t =>
      match digitValue c with
      | Some d => digitsFrom (Some (10 * default 0%Z acc + d)%Z) t
      | None => acc
      end
  end.

Definition parseInt10 (s : string) : option Z :=
  match trimStart s with
  | String c t =>
      if ascii_eqb c "-"%char then Z.opp <$> digitsFrom None t
      else if ascii_eqb c "+"%char then digitsFrom None t
      else digitsFrom None (String c t)
  | EmptyString => None
  end.

(** ** Data loading *)

(** A JSON document as [response.json()] delivers it. *)
Inductive json : Type :=
  | JNull
  | JBool (b : bool)
  | JNum (n : Z)
  | JStr (s : string)
  | JArr (items : list json)
  | JObj (members : list (string * json)).

(** What [response.json()] does with the body: it rejects or it resolves. *)
Inductive Body : Type :=
  | Malformed
  | Parsed (doc : json).

Record Response : Type := { status : Z; body : Body }.

(** [fetch] rejects (network error) or resolves with a response. *)
Inductive FetchOutcome : Type :=
  | NetworkError
  | Responded (r : Response).

(** [response.ok]: the status is in the range 200-299. *)
Definition ok (r : Response) : bool :=
  (200 <=? status r)%Z && (status r <=? 299)%Z.

Inductive Exception : Type :=
  | FetchFailed
  | NotFound (dataFile : string) (st : Z)
  | JsonSyntaxError.

Inductive Completion (A : Type) : Type :=
  | Normal (a : A)
  | Throw (e : Exception).
Arguments Normal {A} a.
Arguments Throw {A} e.

(** What a call leaves behind besides its completion. *)
Record Loaded : Type :=
  { completion : Completion json;
    alerted : list string;
    logged : list Exception }.

Definition loadAlert (dataFile : string) : string :=
  "Could not load data from '" +:+ dataFile +:+
  "'. Please ensure the file exists and is accessible. The application may not work correctly.".

(** The [try] block of [loadDataFromFile]. *)
Definition loadAttempt (net : string -> FetchOutcome) (dataFile : string)
  : Completion json :=
  match net dataFile with
  | NetworkError => Throw FetchFailed
  | Responded response =>
      if negb (ok response) then Throw (NotFound dataFile (status response))
      else match body response with
           | Malformed => Throw JsonSyntaxError
           | Parsed doc => Normal doc
           end
  end.

Definition loadDataFromFile (net : string -> FetchOutcome) (dataFile : string)
  : Loaded :=
  match loadAttempt net dataFile with
  | Normal doc => {| completion := Normal doc; alerted := []; logged := [] |}
  | Throw error =>
      {| completion := Normal (JArr []);
         alerted := [loadAlert dataFile];
         logged := [error] |}
  end.

(** ** Rows, page configurations and the rendered table *)

(** An object: its own properties in enumeration order (insertion order,
    the column names being no array indices), all values strings as the
    data model has them, and the identity that [indexOf] compares. *)
Definition Props : Type := list (string * string).

Record Row : Type := { rid : nat; props : Props }.

(** [row[key]]; [None] is [undefined]. *)
Fixpoint getProp (key : string) (ps : Props) : option string :=
  match ps with
  | [] => None
  | (k, v) :: rest => if decide (k = key) then Some v else getProp key rest
  end.

(** [obj[key] = v] *)
Fixpoint setProp (key v : string) (ps : Props) : Props :=
  match ps with
  | [] => [(key, v)]
  | (k, w) :: rest =>
      if decide (k = key) then (k, v) :: rest else (k, w) :: setProp key v rest
  end.

(** [String(x)] *)
Definition toString (x : option string) : string :=
  match x with
  | Some s => s
  | None => "undefined"
  end.

(** [x || ''] *)
Definition orEmpty (x : option string) : string :=
  match x with
  | Some (String c t) => String c t
  | Some EmptyString => EmptyString
  | None => EmptyString
  end.

(** A property key computed from [columnHeaders[index]]. *)
Definition propKey (header : option string) : string := toString header.

Record PageConfig : Type :=
  { htmlFile : string; dataFile : string; headers : list string }.

Definition home : PageConfig :=
  {| htmlFile := "zosinfo.html";
     dataFile := "zosinfo-data.json";
     headers := ["Vendor"; "component/product"; "type"; "info"] |}.

Definition linkedin : PageConfig :=
  {| htmlFile := "linkedin.html";
     dataFile := "linkedin-data.json";
     headers := ["Sno"; "topic"; "link"] |}.

Inductive PageType : Type := Home | Linkedin.

Definition pageConfigs (pageType : PageType) : PageConfig :=
  match pageType with
  | Home => home
  | Linkedin => linkedin
  end.

(** The content of a table cell. *)
Inductive Cell : Type :=
  | Link (href text target rel : string)
  | Pre (content : string)
  | Plain (text : string).

Definition textContent (c : Cell) : string :=
  match c with
  | Link _ text _ _ => text
  | Pre content => content
  | Plain text => text
  end.

Definition isCommentLine (line : string) : bool := startsWith "// " (trim line).

Definition formatCellContent (value : string) : Cell :=
  if startsWith "http://" value || startsWith "https://" value then
    Link value value "_blank" "noopener noreferrer"
  else if includes "//" value && includes (str1 nl) value then
    Pre (arrayJoin (str1 nl)
           (filter (λ line, negb (isCommentLine line)) (splitLines value)))
  else Plain value.

(** A table row of the body: [dataset.originalIndex] and the cells. *)
Record TR : Type := { originalIndex : nat; cells : list Cell }.

(** ** Page state

    The variables of the script ([config], [currentData], [columnHeaders],
    [isEditMode], [selectedRowIndex]) and the part of the page it reads and
    writes: the values of the filter inputs, the rows of the table body, the
    alerts shown and the files offered for download (newest first).
    [nextId] is the allocation counter giving each new object its
    identity. *)
Record State : Type :=
  { config : PageConfig;
    currentData : list Row;
    columnHeaders : list string;
    isEditMode : bool;
    selectedRowIndex : Z;
    filterInputs : list string;
    tableBody : list TR;
    alerts : list string;
    downloads : list (string * string);
    nextId : nat }.

Definition setData (d : list Row) (n : nat) (st : State) : State :=
  {| config := config st; currentData := d; columnHeaders := columnHeaders st;
     isEditMode := isEditMode st; selectedRowIndex := selectedRowIndex st;
     filterInputs := filterInputs st; tableBody := tableBody st;
     alerts := alerts st; downloads := downloads st; nextId := n |}.

Definition setEditMode (b : bool) (st : State) : State :=
  {| config := config st; currentData := currentData st;
     columnHeaders := columnHeaders st;
     isEditMode := b; selectedRowIndex := selectedRowIndex st;
     filterInputs := filterInputs st; tableBody := tableBody st;
     alerts := alerts st; downloads := downloads st; nextId := nextId st |}.

Definition setSelected (i : Z) (st : State) : State :=
  {| config := config st; currentData := currentData st;
     columnHeaders := columnHeaders st;
     isEditMode := isEditMode st; selectedRowIndex := i;
     filterInputs := filterInputs st; tableBody := tableBody st;
     alerts := alerts st; downloads := downloads st; nextId := nextId st |}.

Definition setFilterInputs (fs : list string) (st : State) : State :=
  {| config := config st; currentData := currentData st;
     columnHeaders := columnHeaders st;
     isEditMode := isEditMode st; selectedRowIndex := selectedRowIndex st;
     filterInputs := fs; tableBody := tableBody st;
     alerts := alerts st; downloads := downloads st; nextId := nextId st |}.

Definition setBody (trs : list TR) (st : State) : State :=
  {| config := config st; currentData := currentData st;
     columnHeaders := columnHeaders st;
     isEditMode := isEditMode st; selectedRowIndex := selectedRowIndex st;
     filterInputs := filterInputs st; tableBody := trs;
     alerts := alerts st; downloads := downloads st; nextId := nextId st |}.

Definition alert (msg : string) (st : State) : State :=
  {| config := config st; currentData := currentData st;
     columnHeaders := columnHeaders st;
     isEditMode := isEditMode st; selectedRowIndex := selectedRowIndex st;
     filterInputs := filterInputs st; tableBody := tableBody st;
     alerts := msg :: alerts st; downloads := downloads st;
     nextId := nextId st |}.

Definition offerDownload (name contents : string) (st : State) : State :=
  {| config := config st; currentData := currentData st;
     columnHeaders := columnHeaders st;
     isEditMode := isEditMode st; selectedRowIndex := selectedRowIndex st;
     filterInputs := filterInputs st; tableBody := tableBody st;
     alerts := alerts st; downloads := (name, contents) :: downloads st;
     nextId := nextId st |}.

(** ** Rendering the table body *)

(** [data.indexOf(row)]: strict equality of objects is identity. *)
Fixpoint indexOf (data : list Row) (row : Row) : option nat :=
  match data with
  | [] => None
  | r :: rest =>
      if decide (rid r = rid row) then Some 0 else S <$> indexOf rest row
  end.

(** One cell of [renderTableBody]: editable text in edit mode, formatted
    content otherwise. *)
Definition renderCell (editing : bool) (rowData : Row) (header : string) : Cell :=
  let cellValue := orEmpty (getProp header (props rowData)) in
  if editing then Plain cellValue else formatCellContent cellValue.

(** The body of the [forEach] of [renderTableBody]; [None] is the early
    [return] for a row that is not in [currentData]. *)
Definition renderRow (st : State) (rowData : Row) : option TR :=
  match indexOf (currentData st) rowData with
  | None => None
  | Some i =>
      Some {| originalIndex := i;
              cells := renderCell (isEditMode st) rowData <$> columnHeaders st |}
  end.

Definition renderTableBody (data : list Row) (st : State) : State :=
  setBody (omap (renderRow st) data) st.

(** ** Filtering *)

(** [filterValues.every((filterValue, index) => ...)], counting from
    [index]. *)
Fixpoint everyFrom (index : nat) (hs : list string) (row : Row)
    (filterValues : list string) : bool :=
  match filterValues with
  | [] => true
  | filterValue :: rest =>
      let header := propKey (hs !! index) in
      let cellValue := toLowerCase (toString (getProp header (props row))) in
      includes filterValue cellValue && everyFrom (S index) hs row rest
  end.

Definition rowMatches (hs : list string) (filterValues : list string)
    (row : Row) : bool :=
  everyFrom 0 hs row filterValues.

Definition filteredData (st : State) : list Row :=
  let filterValues := toLowerCase <$> filterInputs st in
  filter (λ row, rowMatches (columnHeaders st) filterValues row) (currentData st).

Definition filterTable (st : State) : State :=
  renderTableBody (filteredData st) st.

(** ** The editor *)

Definition EDIT_PASSWORD : string := "password123".

Definition msgEditEnabled : string :=
  "Edit mode enabled. Click a row to select it." +:+ str1 nl +:+ str1 nl +:+
  "- Press F6 to add a new row." +:+ str1 nl +:+
  "- Press F7 to delete the selected row." +:+ str1 nl +:+
  "- Press Esc to save and exit.".

Definition msgIncorrectPassword : string := "Incorrect password.".

Definition msgInvalidNumber : string :=
  "Please enter a valid number greater than 0.".

Definition msgNoRowSelected : string :=
  "No row selected. Click a row to select it for deletion.".

Definition msgDownload (name : string) : string :=
  "Your data has been prepared for download. Please save the new '" +:+ name
  +:+ "' file, replacing the old one in your project folder.".

(** [const newRow = {}; columnHeaders.forEach(header => newRow[header] = '')] *)
Definition emptyProps (hs : list string) : Props :=
  foldl (λ ps header, setProp header EmptyString ps) [] hs.

(** [currentData.push(row)] for a newly made object. *)
Definition pushNew (ps : Props) (st : State) : State :=
  setData (currentData st ++ [{| rid := nextId st; props := ps |}])
          (S (nextId st)) st.

(** An array holds at most [maxArrayLength] (2^32 - 1) elements: [push]
    raises a RangeError on a full array. *)
Definition maxArrayLength : Z := 4294967295.

(** [for (let i = 0; i < numRows; i++) { ... }], for a number of rows that
    the array has room for; such a number is far below [maxExactInteger],
    so that it is the integer read and the counter [i] reaches it. *)
Fixpoint addRows (numRows : nat) (st : State) : State :=
  match numRows with
  | 0 => st
  | S n => addRows n (pushNew (emptyProps (columnHeaders st)) st)
  end.

(** The F6 key; [answer] is what [prompt] returned ([None]: cancelled).
    Entering edit mode makes the rendered cells editable, which the model
    reads off [isEditMode]. *)
Definition handleF6 (answer : option string) (st : State) : State :=
  if negb (isEditMode st) then
    match answer with
    | Some password =>
        if decide (password = EDIT_PASSWORD)
        then alert msgEditEnabled (setEditMode true st)
        else alert msgIncorrectPassword st
    | None => st
    end
  else
    match answer with
    | None => st
    | Some numRowsStr =>
        match parseInt10 numRowsStr with
        | None => alert msgInvalidNumber st
        | Some numRows =>
            if (numRows <? 1)%Z then alert msgInvalidNumber st
            else
              let st1 := addRows (Z.to_nat numRows) st in
              renderTableBody (currentData st1) st1
        end
    end.

(** [rowCells.forEach((cell, cellIndex) => newRowData[header] = ...)],
    counting from [cellIndex]. *)
Fixpoint assignCells (hs : list string) (cellIndex : nat) (cs : list Cell)
    (newRowData : Props) : Props :=
  match cs with
  | [] => newRowData
  | cell :: rest =>
      let header := propKey (hs !! cellIndex) in
      assignCells hs (S cellIndex) rest
        (setProp header (trim (textContent cell)) newRowData)
  end.

(** The object [newRowData] read off the table row [tr]; it is a new
    object, [id] being the next free identity. *)
Definition readRow (hs : list string) (id : nat) (tr : TR) : Row :=
  {| rid := id; props := assignCells hs 0 (cells tr) [] |}.

(** The loop filling [domChanges].  The index written by [renderTableBody]
    as [String(originalIndex)] is never empty and [parseInt] reads the same
    number back, so the model keeps the number. *)
Fixpoint collectDomChanges (hs : list string) (id : nat) (trs : list TR)
    (domChanges : gmap nat Row) : gmap nat Row :=
  match trs with
  | [] => domChanges
  | tr :: rest =>
      collectDomChanges hs (S id) rest
        (<[originalIndex tr := readRow hs id tr]> domChanges)
  end.

(** [columnHeaders.every(header => (row[header] || '').trim() === '')] *)
Definition isBlankRow (hs : list string) (row : Row) : bool :=
  forallb (λ header,
             bool_decide (trim (orEmpty (getProp header (props row))) = EmptyString))
          hs.

(** [currentData.map((originalRow, index) => ...)] of [handleEscape]. *)
Definition reconcile (domChanges : gmap nat Row) (data : list Row) : list Row :=
  imap (λ index originalRow,
          match domChanges !! index with
          | Some changed => changed
          | None => originalRow
          end) data.

Definition updatedData (st : State) : list Row :=
  let domChanges :=
    collectDomChanges (columnHeaders st) (nextId st) (tableBody st) ∅ in
  filter (λ row, negb (isBlankRow (columnHeaders st) row))
         (reconcile domChanges (currentData st)).

(** *** [JSON.stringify(data, null, 2)] on an array of rows *)

Definition hexDigit (n : nat) : ascii :=
  if n <? 10 then ascii_of_nat (48 + n) else ascii_of_nat (87 + n).

Definition quoteChar (c : ascii) : string :=
  let n := nat_of_ascii c in
  if n =? 34 then String backslash (str1 dquote)
  else if n =? 92 then String backslash (str1 backslash)
  else if n =? 8 then "\b"
  else if n =? 9 then "\t"
  else if n =? 10 then "\n"
  else if n =? 12 then "\f"
  else if n =? 13 then "\r"
  else if n <? 32 then "\u00" +:+ String (hexDigit (n / 16)) (str1 (hexDigit (n mod 16)))
  else str1 c.

Fixpoint quoteChars (s : string) : string :=
  match s with
  | EmptyString => EmptyString
  | String c t => quoteChar c +:+ quoteChars t
  end.

Definition quoteJSON (s : string) : string :=
  str1 dquote +:+ quoteChars s +:+ str1 dquote.

Definition commaNewline : string := "," +:+ str1 nl.

Definition stringifyProp (kv : string * string) : string :=
  "    " +:+ quoteJSON kv.1 +:+ ": " +:+ quoteJSON kv.2.

Definition stringifyRow (row : Row) : string :=
  match props row with
  | [] => "{}"
  | ps =>
      "{" +:+ str1 nl +:+ arrayJoin commaNewline (stringifyProp <$> ps)
      +:+ str1 nl +:+ "  }"
  end.

Definition stringify (data : list Row) : string :=
  match data with
  | [] => "[]"
  | _ =>
      "[" +:+ str1 nl
      +:+ arrayJoin commaNewline ((λ row, "  " +:+ stringifyRow row) <$> data)
      +:+ str1 nl +:+ "]"
  end.

(** [downloadDataAsFile(currentData)] *)
Definition downloadDataAsFile (st : State) : State :=
  let name := dataFile (config st) in
  alert (msgDownload name) (offerDownload name (stringify (currentData st)) st).

(** The Escape key. *)
Definition handleEscape (st : State) : State :=
  if negb (isEditMode st) then st
  else
    let st1 := setData (updatedData st) (nextId st + length (tableBody st)) st in
    filterTable (setEditMode false (downloadDataAsFile st1)).

(** The F7 key; [currentData.splice(i, 1)] removes the element at [i] when
    there is one. *)
Definition handleF7 (st : State) : State :=
  if negb (isEditMode st) then st
  else if (selectedRowIndex st >? -1)%Z then
    let data := delete (Z.to_nat (selectedRowIndex st)) (currentData st) in
    filterTable (setSelected (-1)%Z (setData data (nextId st) st))
  else alert msgNoRowSelected st.

(** A click on the [k]-th rendered row. *)
Definition clickRow (k : nat) (st : State) : State :=
  if isEditMode st then
    match tableBody st !! k with
    | Some tr => setSelected (Z.of_nat (originalIndex tr)) st
    | None => st
    end
  else st.

(** A key released in a filter input, the inputs then holding [values]. *)
Definition keyupFilter (values : list string) (st : State) : State :=
  filterTable (setFilterInputs values st).

(** The user leaves the content [c] in cell [j] of the [k]-th rendered row;
    cells are editable in edit mode only. *)
Definition editCell (k j : nat) (c : Cell) (st : State) : State :=
  if isEditMode st then
    match tableBody st !! k with
    | Some tr =>
        setBody (<[k := {| originalIndex := originalIndex tr;
                           cells := <[j := c]> (cells tr) |}]> (tableBody st)) st
    | None => st
    end
  else st.

(** The page before its first initialisation. *)
Definition blank : State :=
  {| config := home; currentData := []; columnHeaders := [];
     isEditMode := false; selectedRowIndex := (-1)%Z;
     filterInputs := []; tableBody := [];
     alerts := []; downloads := []; nextId := 0 |}.

(** [initializePage], run at page load and when another page is selected,
    here with nothing happening while it waits for the data (the two parts
    of it are [initializePageStart] and [initializePageResume] below).
    [outcome] is what the loader met for the page's data file: [Some rows]
    for a document that is an array of objects with string values, [None]
    for a failed load, which alerts the user and delivers the empty array.
    Every parsed object is new; [renderTableHeaders] makes one empty filter
    input per column. *)
Definition freshRows (id : nat) (loaded : list Props) : list Row :=
  imap (λ i ps, {| rid := id + i; props := ps |}) loaded.

Definition initializePage (pageType : PageType) (outcome : option (list Props))
    (st : State) : State :=
  let cfg := pageConfigs pageType in
  let loaded := default [] outcome in
  let st1 :=
    {| config := cfg;
       currentData := freshRows (nextId st) loaded;
       columnHeaders := headers cfg;
       isEditMode := false;
       selectedRowIndex := (-1)%Z;
       filterInputs := replicate (length (headers cfg)) EmptyString;
       tableBody := tableBody st;
       alerts := match outcome with
                 | Some _ => alerts st
                 | None => loadAlert (dataFile cfg) :: alerts st
                 end;
       downloads := downloads st;
       nextId := nextId st + length loaded |} in
  renderTableBody (currentData st1) st1.

(** ** Events and the step function of the page *)

Inductive Event : Type :=
  | SelectPage (pageType : PageType) (outcome : option (list Props))
  | KeyF6 (answer : option string)
  | KeyEscape
  | KeyF7
  | Click (k : nat)
  | Keyup (values : list string)
  | Edit (k j : nat) (c : Cell).

Definition step (st : State) (e : Event) : State :=
  match e with
  | SelectPage pageType outcome => initializePage pageType outcome st
  | KeyF6 answer => handleF6 answer st
  | KeyEscape => handleEscape st
  | KeyF7 => handleF7 st
  | Click k => clickRow k st
  | Keyup values => keyupFilter values st
  | Edit k j c => editCell k j c st
  end.

(** [initializePage] is asynchronous: it assigns [pageType] and [config],
    asks for the data file and waits; the handlers of the keys and of the
    table can run before it goes on.  [initializePageStart] is the part up
    to the [await] and [initializePageResume] the part after it, for the
    call that asked for the data file of the page [requested]: the rows
    are those of that file, the alert of a failed load names it, and the
    columns are those of [config] as it is by then. *)
Definition initializePageStart (pageType : PageType) (st : State) : State :=
  {| config := pageConfigs pageType; currentData := currentData st;
     columnHeaders := columnHeaders st;
     isEditMode := isEditMode st; selectedRowIndex := selectedRowIndex st;
     filterInputs := filterInputs st; tableBody := tableBody st;
     alerts := alerts st; downloads := downloads st; nextId := nextId st |}.

Definition initializePageResume (requested : PageType)
    (outcome : option (list Props)) (st : State) : State :=
  let loaded := default [] outcome in
  let st1 :=
    {| config := config st;
       currentData := freshRows (nextId st) loaded;
       columnHeaders := headers (config st);
       isEditMode := false;
       selectedRowIndex := (-1)%Z;
       filterInputs := replicate (length (headers (config st))) EmptyString;
       tableBody := tableBody st;
       alerts := match outcome with
                 | Some _ => alerts st
                 | None => loadAlert (dataFile (pageConfigs requested)) :: alerts st
                 end;
       downloads := downloads st;
       nextId := nextId st + length loaded |} in
  renderTableBody (currentData st1) st1.

(** The states the page is in between two handlers, from the moment its
    first load has completed.  Before that moment [currentData] and
    [columnHeaders] hold no value and the table is empty; the keys pressed
    then leave nothing but alerts ([shown]) and the page selected
    ([pageType]), the first load to complete being the one asked for
    [requested].  From then on a step is an event handled ([reach_step],
    where a page selection is one whose load completes before anything
    else happens), the start of a page selection ([reach_start]), or the
    completion of a load that was pending ([reach_resume]); a completion is
    allowed in every state, which can only add states.  The data files are
    what [initializePage] takes them to be: arrays of objects with string
    values, or files that fail to load. *)
Inductive Reachable : State → Prop :=
  | reach_first (pageType requested : PageType) (outcome : option (list Props))
      (shown : list string) :
      Reachable (initializePageResume requested outcome
                   (initializePageStart pageType (foldr alert blank shown)))
  | reach_step (st : State) (e : Event) :
      Reachable st → Reachable (step st e)
  | reach_start (st : State) (pageType : PageType) :
      Reachable st → Reachable (initializePageStart pageType st)
  | reach_resume (st : State) (requested : PageType)
      (outcome : option (list Props)) :
      Reachable st → Reachable (initializePageResume requested outcome st).

(** What every reachable state satisfies: the rows are distinct objects
    allocated below [nextId], the column names are distinct, and the
    rendered rows carry distinct indices of the dataset and one cell per
    column. *)
Record wf (st : State) : Prop :=
  { wf_rows : NoDup (rid <$> currentData st);
    wf_alloc : Forall (λ row, rid row < nextId st) (currentData st);
    wf_headers : NoDup (columnHeaders st);
    wf_indices : NoDup (originalIndex <$> tableBody st);
    wf_bounds : Forall (λ tr, originalIndex tr < length (currentData st))
                       (tableBody st);
    wf_cells : Forall (λ tr, length (cells tr) = length (columnHeaders st))
                      (tableBody st) }.

(** The index [renderRow] writes for a row of the dataset. *)
Definition positionOf (st : State) (row : Row) : nat :=
  default 0 (indexOf (currentData st) row).

Definition rendered (st : State) (row : Row) : TR :=
  {| originalIndex := positionOf st row;
     cells := renderCell (isEditMode st) row <$> columnHeaders st |}.

(** A rendering [trs] of the rows [data] is index-consistent when it has
    one table row per row of [data], in order, each carrying the position
    of its row in [currentData]. *)
Definition IndexConsistent (st : State) (data : list Row) (trs : list TR) : Prop :=
  length trs = length data
  ∧ ∀ k tr row, trs !! k = Some tr → data !! k = Some row →
      currentData st !! originalIndex tr = Some row.

(** The trimmed texts of the cells of a table row, which [handleEscape]
    reads back. *)
Definition cellTexts (tr : TR) : list string :=
  (λ c, trim (textContent c)) <$> cells tr.

(** A table row carrying the index [i] is displayed. *)
Definition shownAt (st : State) (i : nat) : Prop :=
  ∃ tr, tr ∈ tableBody st ∧ originalIndex tr = i.

(** ** The specification's wording, for comparison with the code *)

(** Filter contract of the specification: a row is kept when every
    column's filter string is a case-folded substring of the row's cell for
    that column, a missing key being the empty string. *)
Definition specCell (header : string) (row : Row) : string :=
  default EmptyString (getProp header (props row)).

Definition specMatches (hs filters : list string) (row : Row) : bool :=
  forallb (λ hf : string * string,
             includes (toLowerCase hf.2) (toLowerCase (specCell hf.1 row)))
          (zip hs filters).

Definition specFilter (hs filters : list string) (data : list Row) : list Row :=
  filter (λ row, specMatches hs filters row) data.

(** A row is blank when each configured column is missing, empty or white
    space only. *)
Definition BlankRow (hs : list string) (row : Row) : Prop :=
  ∀ h, h ∈ hs → trim (specCell h row) = EmptyString.

Definition contains (p s : string) : Prop := ∃ a b, s = a +:+ p +:+ b.

(** Every character of [s] satisfies [P]. *)
Fixpoint allChars (P : ascii → bool) (s : string) : bool :=
  match s with
  | EmptyString => true
  | String c t => P c && allChars P t
  end.

(** Splitting on line boundaries, as a relation: the pieces hold no CR or
    LF and are separated by the maximal non-empty runs of them. *)
Definition noBreak (s : string) : bool := allChars (λ c, negb (isLineBreak c)) s.

Definition allBreak (s : string) : bool := allChars isLineBreak s.

Definition startsWithBreak (s : string) : bool :=
  match s with
  | EmptyString => false
  | String c _ => isLineBreak c
  end.

Inductive LineSplit : string → list string → Prop :=
  | split_last (p : string) :
      noBreak p = true → LineSplit p [p]
  | split_more (p run rest : string) (ps : list string) :
      noBreak p = true →
      run ≠ EmptyString → allBreak run = true →
      startsWithBreak rest = false →
      LineSplit rest ps →
      LineSplit (p +:+ run +:+ rest) (p :: ps).

(** The leading run of CR and LF of a string, and what follows it. *)
Fixpoint takeBreaks (s : string) : string :=
  match s with
  | EmptyString => EmptyString
  | String c t => if isLineBreak c then String c (takeBreaks t) else EmptyString
  end.

Fixpoint dropBreaks (s : string) : string :=
  match s with
  | EmptyString => EmptyString
  | String c t => if isLineBreak c then dropBreaks t else s
  end.

(** What the specification calls a row count: a decimal numeral, and the
    number it denotes. *)
Definition isDigit (c : ascii) : bool := in_range 48 57 (nat_of_ascii c).

Definition isDecimalNumeral (s : string) : bool :=
  match s with
  | EmptyString => false
  | String _ _ => allChars isDigit s
  end.

Fixpoint numeralValue (acc : Z) (s : string) : Z :=
  match s with
  | EmptyString => acc
  | String c t => numeralValue (10 * acc + Z.of_nat (nat_of_ascii c - 48))%Z t
  end.

(** The ways a load fails: the fetch rejects, the status is outside
    200-299, or the body is no JSON. *)
Inductive LoadFailure (net : string → FetchOutcome) (dataFile : string) : Prop :=
  | network_error :
      net dataFile = NetworkError → LoadFailure net dataFile
  | bad_status (r : Response) :
      net dataFile = Responded r → ok r = false → LoadFailure net dataFile
  | parse_error (r : Response) :
      net dataFile = Responded r → ok r = true → body r = Malformed →
      LoadFailure net dataFile.

Inductive LoadSuccess (net : string → FetchOutcome) (dataFile : string)
    (doc : json) : Prop :=
  | load_success (r : Response) :
      net dataFile = Responded r → ok r = true → body r = Parsed doc →
      LoadSuccess net dataFile doc.

(** ** Sample pages *)


(** A row of the home page without the key [info], and a filter on that
    column. *)
Definition incompleteRow : Props :=
  [("Vendor", "IBM Corp"); ("component/product", "z/OS"); ("type", "OS")].

Definition undefFilter : list string :=
  [EmptyString; EmptyString; EmptyString; "undef"].

(** The page in edit mode on the LinkedIn list with two rows, and after a
    click on its second row. *)
Definition twoTopics : list Props :=
  [ [("Sno", "1"); ("topic", "z/OS basics"); ("link", "https://example.org/1")];
    [("Sno", "2"); ("topic", "JCL"); ("link", "https://example.org/2")] ].

Definition editingTwoTopics : State :=
  foldl step (initializePage Linkedin (Some twoTopics) blank)
        [KeyF6 (Some EDIT_PASSWORD)].

Definition secondTopicSelected : State := step editingTwoTopics (Click 1).

(** The LinkedIn list with a second row that has no number and a key of
    its own, filtered on the number 1 so that this row is hidden, then put
    in edit mode. *)
Definition raggedTopics : list Props :=
  [ [("Sno", "1"); ("topic", "z/OS basics"); ("link", "https://example.org/1")];
    [("topic", "JCL"); ("note", "draft")] ].

Definition hiddenRaggedRow : State :=
  foldl step (initializePage Linkedin (Some raggedTopics) blank)
        [Keyup ["1"; EmptyString; EmptyString]; KeyF6 (Some EDIT_PASSWORD)].

(** ** The header rows *)

(** [renderTableHeaders]: the filter row holds one text input per column,
    which starts empty, and the header row one title per column. *)
Record TableHead : Type :=
  { filterRow : list string; headerRow : list string }.

Definition renderTableHeaders (hs : list string) : TableHead :=
  {| filterRow := (λ _, EmptyString) <$> hs; headerRow := (λ headerText, headerText) <$> hs |}.

(** The table row [renderTableBody] makes for the row at position [i]. *)
Definition rowAt (st : State) (i : nat) (row : Row) : TR :=
  {| originalIndex := i;
     cells := renderCell (isEditMode st) row <$> columnHeaders st |}.

(** The text begins with a decimal digit. *)
Definition startsWithDigit (s : string) : bool :=
  match s with
  | EmptyString => false
  | String c _ => isDigit c
  end.

(** What [handleEscape] reads back for a record from an edit-mode table
    row nobody typed into: the configured columns, each with the trimmed
    value, a missing one empty. *)
Definition savedProps (hs : list string) (ps : Props) : Props :=
  zip hs ((λ h, trim (orEmpty (getProp h ps))) <$> hs).

(** The blank test of [handleEscape] on the properties of a record. *)
Definition blankProps (hs : list string) (ps : Props) : bool :=
  forallb (λ header, bool_decide (trim (orEmpty (getProp header ps)) = EmptyString))
          hs.

(** ** Tab navigation in the table body *)

(** The cells of the table body in document order. *)
Definition allCells (st : State) : list Cell := mjoin (cells <$> tableBody st).

(** [document.activeElement] as the handler tells it apart: the [i]-th
    cell of the body, a cell that is none of them (its [indexOf] is -1), or
    an element that is no cell. *)
Inductive Active : Type :=
  | BodyCell (i : nat)
  | ForeignCell
  | NoCell.

(** What the handler did: the cell it called [focus()] on, if any, and
    whether it called [preventDefault()]. *)
Record TabOutcome : Type :=
  { focusCall : option nat; defaultPrevented : bool }.

(** The [keydown] listener of the table body. *)
Definition tableKeydown (key : string) (shiftKey : bool) (activeElement : Active)
    (st : State) : TabOutcome :=
  if negb (bool_decide (key = "Tab")) || negb (isEditMode st) then
    {| focusCall := None; defaultPrevented := false |}
  else
    match activeElement with
    | NoCell => {| focusCall := None; defaultPrevented := true |}
    | _ =>
        let currentIndex :=
          match activeElement with
          | BodyCell i => Z.of_nat i
          | _ => (-1)%Z
          end in
        let nextIndex :=
          if shiftKey then (currentIndex - 1)%Z else (currentIndex + 1)%Z in
        if (0 <=? nextIndex)%Z && (nextIndex <? Z.of_nat (length (allCells st)))%Z
        then {| focusCall := Some (Z.to_nat nextIndex); defaultPrevented := true |}
        else {| focusCall := None; defaultPrevented := true |}
    end.

(** ** Line breaks and pieces *)

(** Every line break of the text is a single LF: no CR, no two breaks in a
    row. *)
Fixpoint loneBreaks (s : string) : bool :=
  match s with
  | EmptyString => true
  | String c t =>
      negb (ascii_eqb c cr)
      && negb (isLineBreak c && startsWithBreak t)
      && loneBreaks t
  end.

(** Pieces as a split leaves them after its first one: free of breaks, and
    none but the last empty. *)
Fixpoint innerPieces (ls : list string) : bool :=
  match ls with
  | [] => true
  | [p] => noBreak p
  | p :: rest =>
      noBreak p && negb (bool_decide (p = EmptyString)) && innerPieces rest
  end.

(** Pieces as a split leaves them: the first one may be empty too. *)
Definition splitPieces (ls : list string) : bool :=
  match ls with
  | [] => false
  | [p] => noBreak p
  | p :: rest => noBreak p && innerPieces rest
  end.

(** ** Reading the exported text back

    A reader of the text [stringify] writes, used to show that the text
    determines the rows: it collects the braces and the quoted texts, the
    latter with their escapes undone. *)
Inductive Token : Type :=
  | TOpen
  | TClose
  | TStr (s : string).

Definition hexValue (c : ascii) : nat :=
  let n := nat_of_ascii c in
  if n <? 58 then n - 48 else n - 87.

Definition unescape (x : ascii) : ascii :=
  if ascii_eqb x "b" then ascii_of_nat 8
  else if ascii_eqb x "t" then ascii_of_nat 9
  else if ascii_eqb x "n" then ascii_of_nat 10
  else if ascii_eqb x "f" then ascii_of_nat 12
  else if ascii_eqb x "r" then ascii_of_nat 13
  else x.

(** [text] is [Some] of the characters read so far inside a quoted text,
    [None] outside. *)
Fixpoint tokens (text : option string) (s : string) {struct s} : list Token :=
  match s with
  | EmptyString => []
  | String c rest =>
      match text with
      | None =>
          if ascii_eqb c dquote then tokens (Some EmptyString) rest
          else if ascii_eqb c "{" then TOpen :: tokens None rest
          else if ascii_eqb c "}" then TClose :: tokens None rest
          else tokens None rest
      | Some read =>
          if ascii_eqb c dquote then TStr read :: tokens None rest
          else if ascii_eqb c backslash then
            match rest with
            | EmptyString => []
            | String x rest1 =>
                if ascii_eqb x "u" then
                  match rest1 with
                  | String _ (String _ (String h (String l rest2))) =>
                      tokens
                        (Some (read +:+ str1 (ascii_of_nat (16 * hexValue h + hexValue l))))
                        rest2
                  | _ => []
                  end
                else tokens (Some (read +:+ str1 (unescape x))) rest1
            end
          else tokens (Some (read +:+ str1 c)) rest
      end
  end.

Fixpoint pairUp (l : list string) : Props :=
  match l with
  | k :: v :: rest => (k, v) :: pairUp rest
  | _ => []
  end.

Fixpoint rowsOfTokens (seen : list string) (ts : list Token) : list Props :=
  match ts with
  | [] => []
  | TOpen :: ts' => rowsOfTokens [] ts'
  | TStr s :: ts' => rowsOfTokens (seen ++ [s]) ts'
  | TClose :: ts' => pairUp seen :: rowsOfTokens [] ts'
  end.

Definition readRows (text : string) : list Props :=
  rowsOfTokens [] (tokens None text).

(** The tokens of the properties of a row, and of a row. *)
Definition propTokens (ps : Props) : list Token :=
  ps ≫= λ kv, [TStr kv.1; TStr kv.2].

Definition rowTokens (ps : Props) : list Token :=
  TOpen :: propTokens ps ++ [TClose].

(** Characters the reader passes over outside a quoted text. *)
Definition passedOver (c : ascii) : bool :=
  negb (ascii_eqb c dquote) && negb (ascii_eqb c "{") && negb (ascii_eqb c "}").



(** ** The filter on text beyond U+00FF

    On U+0000 to U+00FF, the range of [string], [toLowerCase] works one
    code unit at a time.  Beyond that range [String.prototype.toLowerCase]
    looks at the context: a capital sigma becomes the final small sigma
    when it ends a word and the ordinary small sigma elsewhere.  To speak
    of every text a filter input or a cell can hold, the filter is embedded
    here a second time, on sequences of UTF-16 code units and for any
    lower-casing function [lower]; the column names stay [string]s. *)
Definition ustring : Type := list N.

(** The code units of a [string]. *)
Fixpoint units (s : string) : ustring :=
  match s with
  | EmptyString => []
  | String c t => N_of_ascii c :: units t
  end.

(** [s.startsWith(p)] and [s.includes(p)] *)
Fixpoint startsWithW (p s : ustring) : bool :=
  match p, s with
  | [], _ => true
  | _ :: _, [] => false
  | a :: p', b :: s' => (a =? b)%N && startsWithW p' s'
  end.

Fixpoint includesW (p s : ustring) : bool :=
  startsWithW p s ||
  match s with
  | [] => false
  | _ :: t => includesW p t
  end.

(** An object whose values are such texts; [row[key]] and [String(x)]. *)
Definition PropsW : Type := list (string * ustring).

Fixpoint getPropW (key : string) (ps : PropsW) : option ustring :=
  match ps with
  | [] => None
  | (k, v) :: rest => if decide (k = key) then Some v else getPropW key rest
  end.

Definition toStringW (x : option ustring) : ustring :=
  match x with
  | Some s => s
  | None => units "undefined"
  end.

(** [filterValues.every((filterValue, index) => ...)] and the rows that
    [currentData.filter] keeps, as in [filterTable]. *)
Fixpoint everyFromW (lower : ustring → ustring) (index : nat) (hs : list string)
    (row : PropsW) (filterValues : list ustring) : bool :=
  match filterValues with
  | [] => true
  | filterValue :: rest =>
      let header := propKey (hs !! index) in
      let cellValue := lower (toStringW (getPropW header row)) in
      includesW filterValue cellValue && everyFromW lower (S index) hs row rest
  end.

Definition filteredDataW (lower : ustring → ustring) (hs : list string)
    (inputs : list ustring) (data : list PropsW) : list PropsW :=
  let filterValues := lower <$> inputs in
  filter (λ row, everyFromW lower 0 hs row filterValues) data.

Definition containsW (p s : ustring) : Prop := ∃ a b, s = a ++ p ++ b.

(** [String.prototype.toLowerCase] on the code units up to U+00FF and the
    Greek letters U+0391 to U+03CB; a code unit outside these is left as it
    is and counts as no letter.  A capital sigma (U+03A3) is final, and
    becomes U+03C2, when a cased letter comes before it and none after it,
    case-ignorable characters in between not counting; otherwise it becomes
    U+03C3. *)
Definition between (lo hi c : N) : bool := ((lo <=? c) && (c <=? hi))%N.

Definition lowerUnit (c : N) : N :=
  if between 65 90 c
     || (between 192 222 c && negb (c =? 215)%N)
     || (between 913 939 c && negb (c =? 930)%N)
  then (c + 32)%N else c.

Definition isCased (c : N) : bool :=
  between 65 90 c || between 97 122 c
  || (c =? 170)%N || (c =? 181)%N || (c =? 186)%N
  || (between 192 255 c && negb (c =? 215)%N && negb (c =? 247)%N)
  || (between 913 971 c && negb (c =? 930)%N).

Definition isCaseIgnorable (c : N) : bool :=
  (c =? 39)%N || (c =? 46)%N || (c =? 58)%N || (c =? 94)%N || (c =? 96)%N
  || (c =? 168)%N || (c =? 173)%N || (c =? 175)%N || (c =? 180)%N
  || (c =? 183)%N || (c =? 184)%N.

Definition capitalSigma : N := 931.
Definition smallSigma : N := 963.
Definition finalSigma : N := 962.

(** The text goes on, after case-ignorable characters, with a cased
    letter. *)
Fixpoint beforeCased (s : ustring) : bool :=
  match s with
  | [] => false
  | c :: t => if isCaseIgnorable c then beforeCased t else isCased c
  end.

(** [afterCased]: a cased letter came before, with nothing but
    case-ignorable characters since. *)
Fixpoint lowerFrom (afterCased : bool) (s : ustring) : ustring :=
  match s with
  | [] => []
  | c :: t =>
      (if (c =? capitalSigma)%N then
         if afterCased && negb (beforeCased t) then finalSigma else smallSigma
       else lowerUnit c)
      :: lowerFrom (if isCaseIgnorable c then afterCased else isCased c) t
  end.

Definition toLowerCaseW (s : ustring) : ustring := lowerFrom false s.

(** The home page with one row, its vendor the letter A followed by a
    capital sigma, and two filters on that column: the capital sigma, and
    the vendor's name itself. *)
Definition sigmaVendor : ustring := [65; capitalSigma]%N.

Definition sigmaRows : list PropsW := [ [("Vendor", sigmaVendor)] ].

Definition sigmaFilter : list ustring := [ [capitalSigma]; []; []; [] ].

Definition sigmaVendorFilter : list ustring := [ sigmaVendor; []; []; [] ].

(** * Properties *)

(** ** Strings *)

Lemma app_empty_l (s : string) : EmptyString +:+ s = s.
Proof. reflexivity. Qed.

Lemma app_cons (c : ascii) (s t : string) : String c s +:+ t = String c (s +:+ t).
Proof. reflexivity. Qed.

Lemma app_empty_r (s : string) : s +:+ EmptyString = s.
Proof. induction s as [|c s IH]; [done|]. by rewrite app_cons, IH. Qed.

Lemma app_assoc_str (a b c : string) : (a +:+ b) +:+ c = a +:+ (b +:+ c).
Proof. induction a as [|x a IH]; [done|]. by rewrite !app_cons, IH. Qed.

Lemma ascii_eqb_true (a b : ascii) : ascii_eqb a b = true ↔ a = b.
Proof. unfold ascii_eqb. apply bool_decide_eq_true. Qed.

Lemma startsWith_spec (p s : string) :
  startsWith p s = true ↔ ∃ t, s = p +:+ t.
Proof.
  revert s. induction p as [|a p IH]; intros s; simpl.
  - split; [intros _; by exists s | done].
  - destruct s as [|b s].
    + split; [done | intros [t Ht]; discriminate Ht].
    + rewrite andb_true_iff, ascii_eqb_true, IH. split.
      * intros [-> [t ->]]. by exists t.
      * intros [t Ht]. rewrite app_cons in Ht. injection Ht as -> ->. eauto.
Qed.

Lemma includes_spec (p s : string) :
  includes p s = true ↔ ∃ a b, s = a +:+ p +:+ b.
Proof.
  induction s as [|c s IH].
  - cbn [includes]. rewrite orb_false_r, startsWith_spec. split.
    + intros [t Ht]. by exists EmptyString, t.
    + intros [[|x a] [b Hab]]; [by exists b | discriminate Hab].
  - cbn [includes]. rewrite orb_true_iff, startsWith_spec, IH. split.
    + intros [[t Ht] | (a & b & Hab)].
      * by exists EmptyString, t.
      * exists (String c a), b. by rewrite app_cons, Hab.
    + intros [[|x a] [b Hab]].
      * left. by exists b.
      * right. rewrite app_cons in Hab. injection Hab as -> ->. eauto.
Qed.

Lemma includes_empty (s : string) : includes EmptyString s = true.
Proof. destruct s; reflexivity. Qed.

Lemma includes_trans (p q s : string) :
  includes p q = true → includes q s = true → includes p s = true.
Proof.
  rewrite !includes_spec. intros (a & b & ->) (a' & b' & ->).
  exists (a' +:+ a), (b +:+ b'). by rewrite !app_assoc_str.
Qed.

Lemma toLowerCase_app (a b : string) :
  toLowerCase (a +:+ b) = toLowerCase a +:+ toLowerCase b.
Proof. induction a as [|c a IH]; [done|]. by rewrite app_cons; simpl; rewrite IH. Qed.

Lemma includes_toLowerCase (p s : string) :
  includes p s = true → includes (toLowerCase p) (toLowerCase s) = true.
Proof.
  rewrite !includes_spec. intros (a & b & ->).
  exists (toLowerCase a), (toLowerCase b). by rewrite !toLowerCase_app.
Qed.

(** ** Filtering *)

Lemma filter_sublist_mono {A : Type} (P Q : A → Prop)
    `{!∀ x, Decision (P x)} `{!∀ x, Decision (Q x)} (l : list A) :
  (∀ x, P x → Q x) → filter P l `sublist_of` filter Q l.
Proof.
  intros HPQ. induction l as [|x l IH]; [done|].
  rewrite !filter_cons. destruct (decide (P x)) as [HP|HP].
  - rewrite decide_True by auto. by constructor.
  - destruct (decide (Q x)); [by constructor | done].
Qed.

(** A row that passes a list of filters passes every list of pointwise
    weaker ones. *)
Lemma everyFrom_weaken (hs : list string) (row : Row) (fs fs' : list string) :
  Forall2 (λ f f', includes f f' = true) fs fs' →
  ∀ index, everyFrom index hs row fs' = true → everyFrom index hs row fs = true.
Proof.
  induction 1 as [|f f' fs fs' Hf _ IH]; intros index; [done|].
  cbn [everyFrom]. rewrite !andb_true_iff. intros [Hin Hrest]. split.
  - by apply (includes_trans _ f').
  - by apply IH.
Qed.

Lemma includes_refl (s : string) : includes s s = true.
Proof. apply includes_spec. exists EmptyString, EmptyString. by rewrite app_empty_r. Qed.

Lemma tighten_Forall2 (fs : list string) (j : nat) (f f' : string) :
  fs !! j = Some f → includes f f' = true →
  Forall2 (λ a b, includes a b = true)
          (toLowerCase <$> fs) (toLowerCase <$> <[j := f']> fs).
Proof.
  intros Hj Hff'. apply Forall2_fmap, Forall2_same_length_lookup_2.
  - by rewrite length_insert.
  - intros i a b Ha Hb. destruct (decide (i = j)) as [->|Hne].
    + rewrite list_lookup_insert_eq in Hb by (by eapply lookup_lt_Some).
      simplify_eq. by apply includes_toLowerCase.
    + rewrite list_lookup_insert_ne in Hb by done. simplify_eq. apply includes_refl.
Qed.

Lemma filterTable_currentData (st : State) :
  currentData (filterTable st) = currentData st.
Proof. reflexivity. Qed.

(** Where every row has every configured key the code and the
    specification's filter agree. *)
Lemma everyFrom_specMatches (hs : list string) (row : Row) (fs : list string) :
  (∀ h, h ∈ hs → is_Some (getProp h (props row))) →
  ∀ index, length fs = length (drop index hs) →
    everyFrom index hs row (toLowerCase <$> fs)
    = specMatches (drop index hs) fs row.
Proof.
  intros Hkeys. induction fs as [|f fs IH]; intros index Hlen.
  - simpl in Hlen. symmetry in Hlen. apply length_zero_iff_nil in Hlen.
    by rewrite Hlen.
  - destruct (drop index hs) as [|h rest] eqn:Hdrop; [done|].
    assert (hs !! index = Some h) as Hh.
    { rewrite <- (Nat.add_0_r index), <- lookup_drop, Hdrop. done. }
    assert (drop (S index) hs = rest) as Hrest.
    { rewrite (drop_S _ _ _ Hh) in Hdrop. by injection Hdrop. }
    cbn [everyFrom fmap list_fmap]. rewrite Hh. unfold specMatches.
    cbn [zip zip_with forallb fst snd propKey toString].
    fold (specMatches rest fs row). rewrite <- Hrest.
    rewrite <- IH by (rewrite Hrest; simpl in Hlen; lia).
    f_equal. unfold specCell.
    destruct (Hkeys h) as [v ->]; [by eapply list_elem_of_lookup_2|done].
Qed.

Lemma filteredData_complete_rows (st : State) :
  length (filterInputs st) = length (columnHeaders st) →
  Forall (λ row, ∀ h, h ∈ columnHeaders st → is_Some (getProp h (props row)))
         (currentData st) →
  filteredData st
  = specFilter (columnHeaders st) (filterInputs st) (currentData st).
Proof.
  intros Hlen Hall. unfold filteredData, specFilter.
  induction Hall as [|row data Hrow _ IH]; [done|].
  rewrite !filter_cons, IH. unfold rowMatches.
  by rewrite (everyFrom_specMatches _ _ _ Hrow 0 Hlen).
Qed.

(** C1 (code defect): a row without the key [info] is kept by the filter
    ["undef"] on that column, the code comparing against the text
    ["undefined"], where the specification's filter, reading the missing key
    as the empty string as the renderer does, keeps no row. *)
Theorem filterTable_matches_undefined_on_missing_key :
  let st := keyupFilter undefFilter (initializePage Home (Some [incompleteRow]) blank) in
  filteredData st = [ {| rid := 0; props := incompleteRow |} ]
  ∧ tableBody st = [ {| originalIndex := 0;
                        cells := [Plain "IBM Corp"; Plain "z/OS"; Plain "OS";
                                  Plain EmptyString] |} ]
  ∧ specFilter (columnHeaders st) (filterInputs st) (currentData st) = [].
Proof. vm_compute. done. Qed.

(** Within U+0000 to U+00FF, where lower-casing works one code unit at a
    time, a filter string that contains the old one also contains it in
    lower case: replacing the filter string of one column by a string that
    contains it, the other columns unchanged, leaves a subsequence of the
    rows that passed before. *)
Theorem filter_monotone (st : State) (j : nat) (f f' : string) :
  filterInputs st !! j = Some f →
  contains f f' →
  let st' := setFilterInputs (<[j := f']> (filterInputs st)) st in
  filteredData st' `sublist_of` filteredData st
  ∧ length (filteredData st') ≤ length (filteredData st).
Proof.
  intros Hj Hff'%includes_spec st'.
  assert (filteredData st' `sublist_of` filteredData st) as Hsub.
  { unfold filteredData, st'. cbn [filterInputs columnHeaders currentData setFilterInputs].
    apply filter_sublist_mono. intros row. unfold rowMatches.
    rewrite !Is_true_true. apply everyFrom_weaken. by eapply tighten_Forall2. }
  split; [done | by apply sublist_length].
Qed.

Lemma filter_monotone_witness :
  let st := keyupFilter [EmptyString; EmptyString; EmptyString; "o"]
              (initializePage Home (Some [incompleteRow; [("info", "note")]]) blank) in
  let st' := setFilterInputs (<[3 := "ot"]> (filterInputs st)) st in
  filteredData st' `sublist_of` filteredData st
  ∧ length (filteredData st') ≤ length (filteredData st).
Proof.
  apply (filter_monotone _ 3 "o" "ot"); [reflexivity|].
  by exists EmptyString, "t".
Defined.

(** ** The filter on text beyond U+00FF *)

Lemma startsWithW_spec (p s : ustring) :
  startsWithW p s = true ↔ ∃ t, s = p ++ t.
Proof.
  revert s. induction p as [|a p IH]; intros s; simpl.
  - split; [intros _; by exists s | done].
  - destruct s as [|b s].
    + split; [done | intros [t Ht]; discriminate Ht].
    + rewrite andb_true_iff, N.eqb_eq, IH. split.
      * intros [-> [t ->]]. by exists t.
      * intros [t Ht]. injection Ht as -> ->. eauto.
Qed.

Lemma includesW_spec (p s : ustring) :
  includesW p s = true ↔ containsW p s.
Proof.
  unfold containsW. induction s as [|c s IH].
  - cbn [includesW]. rewrite orb_false_r, startsWithW_spec. split.
    + intros [t Ht]. by exists [], t.
    + intros [[|x a] [b Hab]]; [by exists b | discriminate Hab].
  - cbn [includesW]. rewrite orb_true_iff, startsWithW_spec, IH. split.
    + intros [[t Ht] | (a & b & Hab)].
      * by exists [], t.
      * exists (c :: a), b. by rewrite Hab.
    + intros [[|x a] [b Hab]].
      * left. by exists b.
      * right. injection Hab as -> ->. eauto.
Qed.

Lemma includesW_trans (p q s : ustring) :
  includesW p q = true → includesW q s = true → includesW p s = true.
Proof.
  rewrite !includesW_spec. intros (a & b & ->) (a' & b' & ->).
  exists (a' ++ a), (b ++ b'). by rewrite <- !(assoc_L (++)).
Qed.

Lemma includesW_refl (s : ustring) : includesW s s = true.
Proof. apply includesW_spec. exists [], []. by rewrite app_nil_r. Qed.

Lemma everyFromW_weaken (lower : ustring → ustring) (hs : list string)
    (row : PropsW) (fs fs' : list ustring) :
  Forall2 (λ f f', includesW f f' = true) fs fs' →
  ∀ index, everyFromW lower index hs row fs' = true →
           everyFromW lower index hs row fs = true.
Proof.
  induction 1 as [|f f' fs fs' Hf _ IH]; intros index; [done|].
  cbn [everyFromW]. rewrite !andb_true_iff. intros [Hin Hrest]. split.
  - by apply (includesW_trans _ f').
  - by apply IH.
Qed.

(** On the code units of a [string] the two lower-casings agree. *)
Lemma lowerUnit_ascii (c : ascii) :
  (N_of_ascii c =? capitalSigma)%N = false
  ∧ lowerUnit (N_of_ascii c) = N_of_ascii (lowerChar c).
Proof. destruct c as [[] [] [] [] [] [] [] []]; vm_compute; done. Qed.

Lemma toLowerCaseW_units (s : string) :
  toLowerCaseW (units s) = units (toLowerCase s).
Proof.
  unfold toLowerCaseW. generalize false as afterCased.
  induction s as [|c t IH]; intros afterCased; [done|].
  cbn [units toLowerCase lowerFrom].
  destruct (lowerUnit_ascii c) as [-> ->]. by rewrite IH.
Qed.

Lemma units_app (a b : string) : units (a +:+ b) = units a ++ units b.
Proof. induction a as [|c a IH]; [done|]. rewrite app_cons. simpl. by rewrite IH. Qed.

(** Within U+0000 to U+00FF a string that contains another contains it in
    lower case too. *)
Lemma lengthened_contains_in_lower_case (f f' : string) :
  contains f f' →
  containsW (toLowerCaseW (units f)) (toLowerCaseW (units f')).
Proof.
  intros (a & b & ->). rewrite !toLowerCaseW_units, !toLowerCase_app, !units_app.
  by exists (units (toLowerCase a)), (units (toLowerCase b)).
Qed.

(** C9, as the code has it: whatever the lower-casing of the host does,
    replacing the filter string of one column, the other columns
    unchanged, by a string whose lower-cased form contains the lower-cased
    form of the old one leaves a subsequence of the rows that passed
    before, so never more rows. *)
Theorem filter_monotone_in_lower_case (lower : ustring → ustring)
    (hs : list string) (inputs : list ustring) (data : list PropsW)
    (j : nat) (f f' : ustring) :
  inputs !! j = Some f →
  containsW (lower f) (lower f') →
  filteredDataW lower hs (<[j := f']> inputs) data
    `sublist_of` filteredDataW lower hs inputs data
  ∧ length (filteredDataW lower hs (<[j := f']> inputs) data)
    ≤ length (filteredDataW lower hs inputs data).
Proof.
  intros Hj Hff'%includesW_spec.
  assert (filteredDataW lower hs (<[j := f']> inputs) data
            `sublist_of` filteredDataW lower hs inputs data) as Hsub.
  { unfold filteredDataW. apply filter_sublist_mono. intros row.
    rewrite !Is_true_true. apply everyFromW_weaken.
    apply Forall2_fmap, Forall2_same_length_lookup_2.
    - by rewrite length_insert.
    - intros i a b Ha Hb. destruct (decide (i = j)) as [->|Hne].
      + rewrite list_lookup_insert_eq in Hb by (by eapply lookup_lt_Some).
        by simplify_eq.
      + rewrite list_lookup_insert_ne in Hb by done. simplify_eq.
        apply includesW_refl. }
  split; [done | by apply sublist_length].
Qed.

Lemma filter_monotone_in_lower_case_witness :
  let hs := headers home in
  let inputs := [ units "ib"; []; []; [] ] in
  let data := [ [("Vendor", units "IBM Corp")]; [("Vendor", units "Broadcom")] ] in
  filteredDataW toLowerCaseW hs (<[0 := units "IBM"]> inputs) data
    `sublist_of` filteredDataW toLowerCaseW hs inputs data
  ∧ length (filteredDataW toLowerCaseW hs (<[0 := units "IBM"]> inputs) data)
    ≤ length (filteredDataW toLowerCaseW hs inputs data).
Proof.
  apply (filter_monotone_in_lower_case toLowerCaseW _ _ _ 0 (units "ib") (units "IBM"));
    [reflexivity|].
  by exists [], (units "m").
Defined.

(** C9, counterexample to the claim as stated: the filter on the vendor is
    lengthened from a capital sigma to the letter A followed by a capital
    sigma.  Alone the sigma is lower-cased to the ordinary small sigma,
    after the letter to the final one, as in the vendor's name: the row
    that did not pass before passes now. *)
Lemma filter_grows_on_final_sigma :
  let hs := headers home in
  sigmaFilter !! 0 = Some [capitalSigma]
  ∧ sigmaVendorFilter = <[0 := sigmaVendor]> sigmaFilter
  ∧ containsW [capitalSigma] sigmaVendor
  ∧ toLowerCaseW [capitalSigma] = [smallSigma]
  ∧ toLowerCaseW sigmaVendor = [97%N; finalSigma]
  ∧ filteredDataW toLowerCaseW hs sigmaFilter sigmaRows = []
  ∧ filteredDataW toLowerCaseW hs sigmaVendorFilter sigmaRows = sigmaRows
  ∧ ¬ (filteredDataW toLowerCaseW hs sigmaVendorFilter sigmaRows
         `sublist_of` filteredDataW toLowerCaseW hs sigmaFilter sigmaRows)
  ∧ length (filteredDataW toLowerCaseW hs sigmaFilter sigmaRows)
    < length (filteredDataW toLowerCaseW hs sigmaVendorFilter sigmaRows).
Proof.
  assert (filteredDataW toLowerCaseW (headers home) sigmaFilter sigmaRows = [])
    as Hold by (vm_compute; reflexivity).
  assert (filteredDataW toLowerCaseW (headers home) sigmaVendorFilter sigmaRows
          = sigmaRows) as Hnew by (vm_compute; reflexivity).
  intros hs. unfold hs. rewrite Hold, Hnew. split_and!; try reflexivity.
  - by exists [65%N], [].
  - intros Hsub. apply sublist_length in Hsub. simpl in Hsub. lia.
  - simpl. lia.
Qed.

(** ** Data loading *)

Lemma loadAttempt_cases (net : string → FetchOutcome) (dataFile : string) :
  (∃ doc, loadAttempt net dataFile = Normal doc ∧ LoadSuccess net dataFile doc)
  ∨ (∃ e, loadAttempt net dataFile = Throw e ∧ LoadFailure net dataFile).
Proof.
  unfold loadAttempt. destruct (net dataFile) as [|r] eqn:Hnet.
  - right. eexists. split; [done|]. by apply network_error.
  - destruct (ok r) eqn:Hok; simpl.
    + destruct (body r) as [|doc] eqn:Hbody.
      * right. eexists. split; [done|]. by eapply parse_error.
      * left. exists doc. split; [done|]. by eapply load_success.
    + right. eexists. split; [done|]. by eapply bad_status.
Qed.

(** C6: whatever the fetch does, the loader completes normally: with the
    parsed document and no message on success, with the empty array and one
    alert to the user on a network error, a status outside 200-299 or a
    body that does not parse. *)
Theorem loadDataFromFile_never_throws (net : string → FetchOutcome)
    (dataFile : string) :
  ∃ v, completion (loadDataFromFile net dataFile) = Normal v
       ∧ ((LoadSuccess net dataFile v
           ∧ alerted (loadDataFromFile net dataFile) = [])
          ∨ (LoadFailure net dataFile
             ∧ v = JArr []
             ∧ alerted (loadDataFromFile net dataFile) = [loadAlert dataFile])).
Proof.
  unfold loadDataFromFile.
  destruct (loadAttempt_cases net dataFile) as [(doc & -> & Hs)|(e & -> & Hf)].
  - exists doc. split; [done|]. by left.
  - exists (JArr []). split; [done|]. by right.
Qed.

(** C10: a success status with a body that parses to a document that is
    not an array is returned as it is, without a message; the empty array
    is not substituted. *)
Theorem loadDataFromFile_returns_non_array (net : string → FetchOutcome)
    (dataFile : string) (r : Response) (doc : json) :
  net dataFile = Responded r →
  ok r = true →
  body r = Parsed doc →
  (∀ items, doc ≠ JArr items) →
  completion (loadDataFromFile net dataFile) = Normal doc
  ∧ completion (loadDataFromFile net dataFile) ≠ Normal (JArr [])
  ∧ alerted (loadDataFromFile net dataFile) = [].
Proof.
  intros Hnet Hok Hbody Hdoc.
  unfold loadDataFromFile, loadAttempt. rewrite Hnet, Hok, Hbody. simpl.
  split_and!; [done| |done]. intros [= Heq]. by apply (Hdoc []).
Qed.

Lemma loadDataFromFile_returns_non_array_witness :
  let net := λ _ : string,
      Responded {| status := 200%Z; body := Parsed (JObj [("Vendor", JStr "IBM")]) |} in
  completion (loadDataFromFile net "zosinfo-data.json")
  = Normal (JObj [("Vendor", JStr "IBM")])
  ∧ completion (loadDataFromFile net "zosinfo-data.json") ≠ Normal (JArr [])
  ∧ alerted (loadDataFromFile net "zosinfo-data.json") = [].
Proof.
  intros net.
  apply (loadDataFromFile_returns_non_array net "zosinfo-data.json"
           {| status := 200%Z; body := Parsed (JObj [("Vendor", JStr "IBM")]) |});
    [reflexivity | reflexivity | reflexivity | discriminate].
Defined.

(** ** Cell classification *)

Lemma takeBreaks_dropBreaks (s : string) : s = takeBreaks s +:+ dropBreaks s.
Proof.
  induction s as [|c t IH]; [done|]. simpl.
  destruct (isLineBreak c); [|done]. by rewrite app_cons, <- IH.
Qed.

Lemma allBreak_takeBreaks (s : string) : allBreak (takeBreaks s) = true.
Proof.
  induction s as [|c t IH]; [done|]. simpl.
  destruct (isLineBreak c) eqn:Hc; [|done]. unfold allBreak. simpl.
  by rewrite Hc.
Qed.

Lemma startsWithBreak_dropBreaks (s : string) :
  startsWithBreak (dropBreaks s) = false.
Proof.
  induction s as [|c t IH]; [done|]. simpl.
  destruct (isLineBreak c) eqn:Hc; [done|]. simpl. done.
Qed.

Lemma length_dropBreaks (s : string) :
  String.length (dropBreaks s) ≤ String.length s.
Proof.
  induction s as [|c t IH]; [done|]. simpl.
  destruct (isLineBreak c); simpl; lia.
Qed.

Lemma splitLinesFrom_true (s : string) :
  splitLinesFrom true s = splitLinesFrom false (dropBreaks s).
Proof.
  induction s as [|c t IH]; [done|]. simpl.
  destruct (isLineBreak c) eqn:Hc; [done|]. simpl. by rewrite Hc.
Qed.

Lemma LineSplit_cons (c : ascii) (s : string) (p : string) (ps : list string) :
  isLineBreak c = false →
  LineSplit s (p :: ps) → LineSplit (String c s) (String c p :: ps).
Proof.
  intros Hc Hs. inversion Hs as [q Hq | q run rest qs Hq Hrun Hall Hrest Hqs]; subst.
  - apply split_last. unfold noBreak in *. simpl. by rewrite Hc.
  - rewrite <- app_cons. apply split_more; try done.
    unfold noBreak in *. simpl. by rewrite Hc.
Qed.

Lemma splitLinesFrom_spec (n : nat) :
  ∀ s, String.length s ≤ n → LineSplit s (splitLinesFrom false s).
Proof.
  induction n as [|n IH]; intros [|c t] Hlen; try (by apply split_last);
    simpl in Hlen; [lia|].
  cbn [splitLinesFrom]. destruct (isLineBreak c) eqn:Hc.
  - rewrite splitLinesFrom_true.
    rewrite (takeBreaks_dropBreaks t) at 1.
    change (LineSplit (EmptyString +:+ String c (takeBreaks t) +:+ dropBreaks t)
              (EmptyString :: splitLinesFrom false (dropBreaks t))).
    apply split_more; try done.
    + unfold allBreak. simpl. rewrite Hc. apply allBreak_takeBreaks.
    + apply startsWithBreak_dropBreaks.
    + apply IH. pose proof (length_dropBreaks t). lia.
  - assert (LineSplit t (splitLinesFrom false t)) as Ht by (apply IH; lia).
    destruct (splitLinesFrom false t) as [|p ps].
    + inversion Ht.
    + by apply LineSplit_cons.
Qed.

Lemma splitLines_spec (s : string) : LineSplit s (splitLines s).
Proof. by apply (splitLinesFrom_spec (String.length s)). Qed.

Lemma splitLines_noBreak (p : string) : noBreak p = true → splitLines p = [p].
Proof.
  unfold splitLines, noBreak. induction p as [|c p IH]; [done|]. simpl.
  rewrite andb_true_iff, negb_true_iff. intros [-> Hp]. by rewrite IH.
Qed.

Lemma splitLinesFrom_run (run rest : string) :
  allBreak run = true → startsWithBreak rest = false →
  splitLinesFrom true (run +:+ rest) = splitLinesFrom false rest.
Proof.
  unfold allBreak. induction run as [|c run IH]; simpl.
  - intros _ Hrest. rewrite app_empty_l. destruct rest as [|d rest]; [done|].
    simpl in *. by rewrite Hrest.
  - rewrite andb_true_iff. intros [Hc Hrun] Hrest. rewrite Hc. by apply IH.
Qed.

Lemma splitLines_more (p run rest : string) :
  noBreak p = true → run ≠ EmptyString → allBreak run = true →
  startsWithBreak rest = false →
  splitLines (p +:+ run +:+ rest) = p :: splitLines rest.
Proof.
  unfold splitLines, noBreak. intros Hp Hne Hrun Hrest.
  induction p as [|c p IH].
  - rewrite app_empty_l. destruct run as [|d run]; [done|].
    unfold allBreak in Hrun. simpl in Hrun. apply andb_true_iff in Hrun as [Hd Hrun].
    rewrite app_cons. simpl. rewrite Hd. f_equal. by apply splitLinesFrom_run.
  - simpl in Hp. apply andb_true_iff in Hp as [Hc Hp]. apply negb_true_iff in Hc.
    rewrite app_cons. simpl. rewrite Hc. by rewrite IH.
Qed.

(** The relation determines the pieces. *)
Lemma LineSplit_unique (s : string) (lines : list string) :
  LineSplit s lines → lines = splitLines s.
Proof.
  induction 1 as [p Hp | p run rest ps Hp Hne Hrun Hrest _ IH].
  - by rewrite splitLines_noBreak.
  - by rewrite splitLines_more, IH.
Qed.

Lemma isCommentLine_spec (line : string) :
  isCommentLine line = true ↔ ∃ rest, trim line = "// " +:+ rest.
Proof. apply startsWith_spec. Qed.



(** ** Rendering and the tracked index *)

Lemma indexOf_Some (data : list Row) (row : Row) (i : nat) :
  indexOf data row = Some i → ∃ r, data !! i = Some r ∧ rid r = rid row.
Proof.
  revert i. induction data as [|r data IH]; intros i; simpl; [done|].
  destruct (decide (rid r = rid row)) as [Heq|Hne].
  - intros [= <-]. by exists r.
  - destruct (indexOf data row) as [j|] eqn:Hj; [|done].
    intros [= <-]. by apply IH.
Qed.

Lemma indexOf_lookup (data : list Row) (row : Row) (i : nat) :
  NoDup (rid <$> data) → data !! i = Some row → indexOf data row = Some i.
Proof.
  revert i. induction data as [|r data IH]; intros i Hnd Hi; [done|].
  rewrite fmap_cons in Hnd. apply NoDup_cons in Hnd as [Hr Hnd]. simpl.
  destruct i as [|i]; simpl in Hi.
  - simplify_eq. by rewrite decide_True.
  - rewrite decide_False.
    + by rewrite (IH i Hnd Hi).
    + intros Heq. apply Hr. rewrite Heq.
      apply list_elem_of_fmap. exists row. split; [done|].
      by eapply list_elem_of_lookup_2.
Qed.

Lemma positionOf_lookup (st : State) (row : Row) :
  NoDup (rid <$> currentData st) → row ∈ currentData st →
  currentData st !! positionOf st row = Some row.
Proof.
  intros Hnd [i Hi]%list_elem_of_lookup_1. unfold positionOf.
  by rewrite (indexOf_lookup _ _ _ Hnd Hi).
Qed.

Lemma renderRow_member (st : State) (row : Row) :
  NoDup (rid <$> currentData st) → row ∈ currentData st →
  renderRow st row = Some (rendered st row).
Proof.
  intros Hnd [i Hi]%list_elem_of_lookup_1. unfold renderRow, rendered, positionOf.
  by rewrite (indexOf_lookup _ _ _ Hnd Hi).
Qed.

Lemma omap_all_Some {A B : Type} (f : A → option B) (g : A → B) (l : list A) :
  (∀ x, x ∈ l → f x = Some (g x)) → omap f l = g <$> l.
Proof.
  induction l as [|x l IH]; intros Hall; [done|]. csimpl.
  rewrite (Hall x) by left. rewrite IH; [done|].
  intros y Hy. apply Hall. by right.
Qed.

Lemma tableBody_render (st : State) (data : list Row) :
  NoDup (rid <$> currentData st) → data ⊆ currentData st →
  tableBody (renderTableBody data st) = rendered st <$> data.
Proof.
  intros Hnd Hsub. cbn [renderTableBody setBody tableBody].
  apply omap_all_Some. intros row Hrow. apply renderRow_member; auto.
Qed.

(** C8: in a dataset of distinct row objects, rendering any selection of
    its rows (the whole dataset, or what the filter keeps) gives one table
    row per selected row, in order, and the index each table row carries
    is the position of its row in the dataset. *)
Theorem rendered_rows_carry_their_position (st : State) (data : list Row) :
  NoDup (rid <$> currentData st) →
  data ⊆ currentData st →
  IndexConsistent st data (tableBody (renderTableBody data st))
  ∧ IndexConsistent st (currentData st)
      (tableBody (renderTableBody (currentData st) st))
  ∧ IndexConsistent st (filteredData st) (tableBody (filterTable st)).
Proof.
  intros Hnd Hsub.
  assert (∀ d, d ⊆ currentData st →
            IndexConsistent st d (tableBody (renderTableBody d st))) as Hgen.
  { intros d Hd. rewrite tableBody_render by done. split.
    - by rewrite length_fmap.
    - intros k tr row Htr Hrow. rewrite list_lookup_fmap, Hrow in Htr.
      simplify_eq/=. apply positionOf_lookup; [done|].
      apply Hd. by eapply list_elem_of_lookup_2. }
  split_and!; apply Hgen; [done..|].
  unfold filteredData. apply list_subseteq_filter.
Qed.

(** ** The invariant of the reachable states *)

Lemma NoDup_rows (data : list Row) : NoDup (rid <$> data) → NoDup data.
Proof. apply NoDup_fmap_1. Qed.

Lemma render_wf (st : State) (data : list Row) :
  NoDup (rid <$> currentData st) →
  Forall (λ row, rid row < nextId st) (currentData st) →
  NoDup (columnHeaders st) →
  data `sublist_of` currentData st →
  wf (renderTableBody data st).
Proof.
  intros Hnd Halloc Hhs Hsub.
  assert (data ⊆ currentData st) as Hin by by apply sublist_subseteq.
  split; try done.
  - rewrite tableBody_render by done. rewrite <- list_fmap_compose.
    apply NoDup_fmap_2_strong.
    + intros x y Hx Hy Hxy. simpl in Hxy.
      pose proof (positionOf_lookup st x Hnd (Hin _ Hx)) as H1.
      pose proof (positionOf_lookup st y Hnd (Hin _ Hy)) as H2.
      rewrite Hxy in H1. congruence.
    + eapply sublist_NoDup; [|done]. by apply NoDup_rows.
  - rewrite tableBody_render by done. apply Forall_fmap, Forall_forall.
    intros row Hrow. simpl. eapply lookup_lt_Some, positionOf_lookup; auto.
  - rewrite tableBody_render by done. apply Forall_fmap, Forall_forall.
    intros row _. simpl. by rewrite length_fmap.
Qed.

Lemma filterTable_wf (st : State) :
  NoDup (rid <$> currentData st) →
  Forall (λ row, rid row < nextId st) (currentData st) →
  NoDup (columnHeaders st) →
  wf (filterTable st).
Proof.
  intros. apply render_wf; try done. apply sublist_filter.
Qed.

Lemma addRows_currentData (n : nat) (st : State) :
  currentData (addRows n st)
  = currentData st
    ++ ((λ i, {| rid := nextId st + i; props := emptyProps (columnHeaders st) |})
          <$> seq 0 n).
Proof.
  revert st. induction n as [|n IH]; intros st.
  - simpl. by rewrite app_nil_r.
  - cbn [addRows]. rewrite IH. cbn [pushNew setData currentData nextId columnHeaders].
    rewrite <- app_assoc. f_equal. cbn [seq fmap list_fmap app]. f_equal.
    { f_equal. lia. }
    rewrite <- fmap_S_seq, <- list_fmap_compose. apply list_fmap_ext.
    intros _ i _. simpl. f_equal. lia.
Qed.

Lemma addRows_frame (n : nat) (st : State) :
  nextId (addRows n st) = nextId st + n
  ∧ columnHeaders (addRows n st) = columnHeaders st
  ∧ isEditMode (addRows n st) = isEditMode st
  ∧ selectedRowIndex (addRows n st) = selectedRowIndex st
  ∧ alerts (addRows n st) = alerts st
  ∧ downloads (addRows n st) = downloads st
  ∧ filterInputs (addRows n st) = filterInputs st
  ∧ config (addRows n st) = config st.
Proof.
  revert st. induction n as [|n IH]; intros st.
  - simpl. split_and!; try done; lia.
  - cbn [addRows]. destruct (IH (pushNew (emptyProps (columnHeaders st)) st))
      as (-> & -> & -> & -> & -> & -> & -> & ->).
    cbn. split_and!; try done; lia.
Qed.

Lemma addRows_rows_wf (n : nat) (st : State) :
  NoDup (rid <$> currentData st) →
  Forall (λ row, rid row < nextId st) (currentData st) →
  NoDup (rid <$> currentData (addRows n st))
  ∧ Forall (λ row, rid row < nextId (addRows n st)) (currentData (addRows n st)).
Proof.
  intros Hnd Halloc. rewrite addRows_currentData.
  destruct (addRows_frame n st) as [-> _]. split.
  - rewrite fmap_app, <- list_fmap_compose. apply NoDup_app. split_and!.
    + done.
    + intros x Hx [i [-> Hi]]%list_elem_of_fmap. simpl in Hx.
      apply list_elem_of_fmap in Hx as [row [Heq Hrow]].
      rewrite Forall_forall in Halloc. specialize (Halloc _ Hrow). lia.
    + apply NoDup_fmap_2; [|apply NoDup_seq]. intros i j Hij. simpl in Hij. lia.
  - apply Forall_app. split.
    + eapply Forall_impl; [done|]. intros row Hrow. simpl in *. lia.
    + apply Forall_fmap, Forall_forall. intros i Hi%elem_of_seq. simpl. lia.
Qed.

(** ** Reading the table back *)

Lemma collect_lookup_other (hs : list string) (trs : list TR) (i : nat) :
  (∀ tr, tr ∈ trs → originalIndex tr ≠ i) →
  ∀ id (m : gmap nat Row), collectDomChanges hs id trs m !! i = m !! i.
Proof.
  induction trs as [|tr trs IH]; intros Hno id m; [done|].
  cbn [collectDomChanges]. rewrite IH.
  - apply lookup_insert_ne, Hno. by left.
  - intros tr' Htr'. apply Hno. by right.
Qed.

Lemma collect_lookup_weak (hs : list string) (trs : list TR) (i : nat) (r : Row) :
  ∀ id (m : gmap nat Row),
    collectDomChanges hs id trs m !! i = Some r →
    m !! i = Some r
    ∨ ∃ k tr, trs !! k = Some tr ∧ originalIndex tr = i
              ∧ r = readRow hs (id + k) tr.
Proof.
  induction trs as [|tr trs IH]; intros id m Hr; [by left|].
  cbn [collectDomChanges] in Hr. apply IH in Hr as [Hr | (k & tr' & Hk & Hi & ->)].
  - destruct (decide (originalIndex tr = i)) as [Heq|Hne].
    + rewrite <- Heq, lookup_insert_eq in Hr. simplify_eq. right.
      exists 0, tr. by rewrite Nat.add_0_r.
    + rewrite lookup_insert_ne in Hr by done. by left.
  - right. exists (S k), tr'. split_and!; [done..|]. f_equal. lia.
Qed.

Lemma collect_lookup_shown (hs : list string) (trs : list TR) :
  NoDup (originalIndex <$> trs) →
  ∀ id (m : gmap nat Row) k tr,
    trs !! k = Some tr →
    collectDomChanges hs id trs m !! originalIndex tr
    = Some (readRow hs (id + k) tr).
Proof.
  induction trs as [|tr0 trs IH]; intros Hnd id m k tr Hk; [done|].
  rewrite fmap_cons in Hnd. apply NoDup_cons in Hnd as [Hnotin Hnd].
  cbn [collectDomChanges]. destruct k as [|k]; simpl in Hk.
  - simplify_eq. rewrite collect_lookup_other.
    + by rewrite lookup_insert_eq, Nat.add_0_r.
    + intros tr' Htr' Heq. apply Hnotin. rewrite <- Heq.
      apply list_elem_of_fmap. by exists tr'.
  - rewrite (IH Hnd (S id) _ k tr Hk). do 2 f_equal. lia.
Qed.

Lemma reconcile_lookup (m : gmap nat Row) (data : list Row) (i : nat) :
  reconcile m data !! i = (λ row, default row (m !! i)) <$> data !! i.
Proof.
  unfold reconcile. rewrite list_lookup_imap.
  destruct (data !! i); simpl; [|done]. by destruct (m !! i).
Qed.

Lemma length_reconcile (m : gmap nat Row) (data : list Row) :
  length (reconcile m data) = length data.
Proof. apply length_imap. Qed.

(** Each reconciled row is the original one or a new one read off a
    table row carrying its index. *)
Lemma reconcile_cases (st : State) (i : nat) (r : Row) :
  reconcile (collectDomChanges (columnHeaders st) (nextId st) (tableBody st) ∅)
            (currentData st) !! i = Some r →
  (currentData st !! i = Some r)
  ∨ ∃ k tr, tableBody st !! k = Some tr ∧ originalIndex tr = i
            ∧ r = readRow (columnHeaders st) (nextId st + k) tr.
Proof.
  rewrite reconcile_lookup. destruct (currentData st !! i) as [row|] eqn:Hi; [|done].
  simpl. intros [= <-].
  destruct (collectDomChanges _ _ _ _ !! i) as [r|] eqn:Hm; simpl; [|by left].
  apply collect_lookup_weak in Hm as [Hm | Hm]; [done | by right].
Qed.

Lemma reconcile_rows_wf (st : State) :
  NoDup (rid <$> currentData st) →
  Forall (λ row, rid row < nextId st) (currentData st) →
  let data' :=
    reconcile (collectDomChanges (columnHeaders st) (nextId st) (tableBody st) ∅)
              (currentData st) in
  NoDup (rid <$> data')
  ∧ Forall (λ row, rid row < nextId st + length (tableBody st)) data'.
Proof.
  intros Hnd Halloc data'. rewrite Forall_forall in Halloc.
  assert (∀ i r, currentData st !! i = Some r → rid r < nextId st) as Hold.
  { intros i r Hi. apply Halloc. by eapply list_elem_of_lookup_2. }
  split.
  - apply NoDup_alt. intros i j x Hi Hj.
    apply list_lookup_fmap_Some in Hi as (ri & -> & Hi).
    apply list_lookup_fmap_Some in Hj as (rj & Hrid & Hj).
    apply reconcile_cases in Hi as [Hi | (k & tr & Hk & <- & ->)];
      apply reconcile_cases in Hj as [Hj | (k' & tr' & Hk' & <- & ->)].
    + rewrite NoDup_alt in Hnd. apply (Hnd i j (rid ri)).
      * by rewrite list_lookup_fmap, Hi.
      * by rewrite list_lookup_fmap, Hj, Hrid.
    + apply Hold in Hi. simpl in Hrid. lia.
    + apply Hold in Hj. simpl in Hrid. lia.
    + simpl in Hrid. assert (k = k') as -> by lia. congruence.
  - apply Forall_forall. intros r [i Hi]%list_elem_of_lookup_1.
    apply reconcile_cases in Hi as [Hi | (k & tr & Hk & _ & ->)].
    + apply Hold in Hi. lia.
    + apply lookup_lt_Some in Hk. simpl. lia.
Qed.

Lemma sublist_rows_wf (data data' : list Row) (n : nat) :
  data' `sublist_of` data →
  NoDup (rid <$> data) → Forall (λ row, rid row < n) data →
  NoDup (rid <$> data') ∧ Forall (λ row, rid row < n) data'.
Proof.
  intros Hsub Hnd Halloc. split.
  - eapply sublist_NoDup; [done|]. by apply fmap_sublist.
  - rewrite Forall_forall in *. intros row Hrow. apply Halloc.
    by eapply sublist_subseteq.
Qed.

Lemma handleF6_wf (answer : option string) (st : State) :
  wf st → wf (handleF6 answer st).
Proof.
  intros Hwf. unfold handleF6. destruct (isEditMode st); simpl.
  - destruct answer as [numRowsStr|]; [|done].
    destruct (parseInt10 numRowsStr) as [numRows|]; [|by destruct Hwf].
    destruct (numRows <? 1)%Z; [by destruct Hwf|].
    set (n := Z.to_nat numRows).
    destruct (addRows_rows_wf n st (wf_rows _ Hwf) (wf_alloc _ Hwf)) as [Hnd Halloc].
    apply render_wf; try done.
    destruct (addRows_frame n st) as (_ & -> & _). apply Hwf.
  - destruct answer as [password|]; [|done].
    destruct (decide (password = EDIT_PASSWORD)); by destruct Hwf.
Qed.

Lemma handleEscape_wf (st : State) : wf st → wf (handleEscape st).
Proof.
  intros Hwf. unfold handleEscape. destruct (isEditMode st); simpl; [|done].
  destruct (reconcile_rows_wf st (wf_rows _ Hwf) (wf_alloc _ Hwf)) as [Hnd Halloc].
  apply filterTable_wf; cbn.
  - eapply sublist_rows_wf; [apply sublist_filter|done..].
  - eapply sublist_rows_wf; [apply sublist_filter|done..].
  - apply Hwf.
Qed.

Lemma handleF7_wf (st : State) : wf st → wf (handleF7 st).
Proof.
  intros Hwf. unfold handleF7. destruct (isEditMode st); simpl; [|done].
  destruct (selectedRowIndex st >? -1)%Z; [|by destruct Hwf].
  apply filterTable_wf; cbn.
  - eapply sublist_rows_wf; [apply sublist_delete|apply Hwf..].
  - eapply sublist_rows_wf; [apply sublist_delete|apply Hwf..].
  - apply Hwf.
Qed.

Lemma clickRow_wf (k : nat) (st : State) : wf st → wf (clickRow k st).
Proof.
  intros Hwf. unfold clickRow. destruct (isEditMode st); [|done].
  destruct (tableBody st !! k); by destruct Hwf.
Qed.

Lemma keyupFilter_wf (values : list string) (st : State) :
  wf st → wf (keyupFilter values st).
Proof. intros Hwf. apply filterTable_wf; apply Hwf. Qed.

Lemma editCell_wf (k j : nat) (c : Cell) (st : State) : wf st → wf (editCell k j c st).
Proof.
  intros Hwf. unfold editCell. destruct (isEditMode st); [|done].
  destruct (tableBody st !! k) as [tr|] eqn:Hk; [|done].
  destruct Hwf as [? ? ? Hidx Hbounds Hcells]. split; try done; cbn.
  - rewrite list_fmap_insert. simpl.
    rewrite list_insert_id; [done|]. by rewrite list_lookup_fmap, Hk.
  - apply Forall_insert; [done|]. simpl.
    rewrite Forall_forall in Hbounds. apply Hbounds. by eapply list_elem_of_lookup_2.
  - apply Forall_insert; [done|]. simpl. rewrite length_insert.
    rewrite Forall_forall in Hcells. apply Hcells. by eapply list_elem_of_lookup_2.
Qed.

Lemma pageConfigs_NoDup (pageType : PageType) :
  NoDup (headers (pageConfigs pageType)).
Proof.
  destruct pageType; apply NoDup_ListNoDup; cbn;
    repeat (constructor; [simpl; intuition discriminate|]); constructor.
Qed.

Lemma initializePage_wf (pageType : PageType) (outcome : option (list Props))
    (st : State) :
  wf (initializePage pageType outcome st).
Proof.
  unfold initializePage. apply render_wf; cbn; try done.
  - unfold freshRows. apply NoDup_alt. intros i j x Hi Hj.
    rewrite list_lookup_fmap, list_lookup_imap in Hi, Hj.
    destruct (default [] outcome !! i); [|done].
    destruct (default [] outcome !! j); [|done]. simplify_eq/=. lia.
  - apply Forall_forall. intros r [i Hi]%list_elem_of_lookup_1.
    unfold freshRows in Hi. rewrite list_lookup_imap in Hi.
    destruct (default [] outcome !! i) eqn:Hl; [|done]. simplify_eq/=.
    apply lookup_lt_Some in Hl. lia.
  - apply pageConfigs_NoDup.
Qed.

Lemma step_wf (st : State) (e : Event) : wf st → wf (step st e).
Proof.
  intros Hwf. destruct e; simpl.
  - apply initializePage_wf.
  - by apply handleF6_wf.
  - by apply handleEscape_wf.
  - by apply handleF7_wf.
  - by apply clickRow_wf.
  - by apply keyupFilter_wf.
  - by apply editCell_wf.
Qed.

Lemma initializePage_split (pageType : PageType) (outcome : option (list Props))
    (st : State) :
  initializePage pageType outcome st
  = initializePageResume pageType outcome (initializePageStart pageType st).
Proof. reflexivity. Qed.

Lemma initializePageStart_wf (pageType : PageType) (st : State) :
  wf st → wf (initializePageStart pageType st).
Proof. intros [? ? ? ? ? ?]. by split. Qed.

Lemma initializePageResume_wf (requested : PageType)
    (outcome : option (list Props)) (st : State) :
  NoDup (headers (config st)) →
  wf (initializePageResume requested outcome st).
Proof.
  intros Hhs. unfold initializePageResume. apply render_wf; cbn; try done.
  - unfold freshRows. apply NoDup_alt. intros i j x Hi Hj.
    rewrite list_lookup_fmap, list_lookup_imap in Hi, Hj.
    destruct (default [] outcome !! i); [|done].
    destruct (default [] outcome !! j); [|done]. simplify_eq/=. lia.
  - apply Forall_forall. intros r [i Hi]%list_elem_of_lookup_1.
    unfold freshRows in Hi. rewrite list_lookup_imap in Hi.
    destruct (default [] outcome !! i) eqn:Hl; [|done]. simplify_eq/=.
    apply lookup_lt_Some in Hl. lia.
Qed.

(** No handler assigns [config] but [initializePage]. *)
Lemma step_config (st : State) (e : Event) :
  (∃ pageType, config st = pageConfigs pageType) →
  ∃ pageType, config (step st e) = pageConfigs pageType.
Proof.
  intros Hcfg. destruct e as [pt o|answer| | |k|values|k j c]; simpl.
  - by exists pt.
  - unfold handleF6. destruct (isEditMode st); simpl.
    + destruct answer as [numRowsStr|]; [|done].
      destruct (parseInt10 numRowsStr) as [n|]; [|done].
      destruct (n <? 1)%Z; [done|].
      cbn [renderTableBody setBody config].
      by destruct (addRows_frame (Z.to_nat n) st) as (_ & _ & _ & _ & _ & _ & _ & ->).
    + destruct answer as [password|]; [|done].
      by destruct (decide (password = EDIT_PASSWORD)).
  - unfold handleEscape. by destruct (isEditMode st).
  - unfold handleF7. destruct (isEditMode st); [|done]. simpl.
    by destruct (selectedRowIndex st >? -1)%Z.
  - unfold clickRow. destruct (isEditMode st); [|done].
    by destruct (tableBody st !! k).
  - done.
  - unfold editCell. destruct (isEditMode st); [|done].
    by destruct (tableBody st !! k).
Qed.

Lemma Reachable_config_wf (st : State) :
  Reachable st → (∃ pageType, config st = pageConfigs pageType) ∧ wf st.
Proof.
  induction 1 as [pageType requested outcome shown | st e _ [Hcfg Hwf]
                 | st pageType _ [Hcfg Hwf] | st requested outcome _ [Hcfg Hwf]].
  - split; [by exists pageType|].
    apply initializePageResume_wf, pageConfigs_NoDup.
  - split; [by apply step_config | by apply step_wf].
  - split; [by exists pageType | by apply initializePageStart_wf].
  - split; [done|]. destruct Hcfg as [pageType Hcfg].
    apply initializePageResume_wf. rewrite Hcfg. apply pageConfigs_NoDup.
Qed.

(** Every reachable state satisfies the invariant. *)
Lemma Reachable_wf (st : State) : Reachable st → wf st.
Proof. intros Hreach. by apply Reachable_config_wf. Qed.

(** ** Adding rows *)

Lemma getProp_setProp (key key' v : string) (ps : Props) :
  getProp key' (setProp key v ps)
  = if decide (key = key') then Some v else getProp key' ps.
Proof.
  induction ps as [|[k w] ps IH]; simpl.
  - by destruct (decide (key = key')).
  - destruct (decide (k = key)) as [->|Hk]; simpl.
    + by destruct (decide (key = key')).
    + rewrite IH. destruct (decide (k = key')) as [->|]; [|done].
      by rewrite decide_False by done.
Qed.

Lemma emptyProps_from (hs : list string) (acc : Props) (h : string) :
  getProp h (foldl (λ ps header, setProp header EmptyString ps) acc hs)
  = if decide (h ∈ hs) then Some EmptyString else getProp h acc.
Proof.
  revert acc. induction hs as [|h0 hs IH]; intros acc; cbn [foldl].
  - destruct (decide (h ∈ [])) as [Hin|_]; [by apply elem_of_nil in Hin | done].
  - rewrite IH, getProp_setProp.
    destruct (decide (h ∈ hs)) as [Hin|Hout].
    + destruct (decide (h ∈ h0 :: hs)) as [_|Hno]; [done|].
      destruct Hno. by right.
    + destruct (decide (h0 = h)) as [->|Hne].
      * destruct (decide (h ∈ h :: hs)) as [_|Hno]; [done|].
        destruct Hno. by left.
      * destruct (decide (h ∈ h0 :: hs)) as [Hin|_]; [|done].
        by apply elem_of_cons in Hin as [->|?].
Qed.

Lemma emptyProps_lookup (hs : list string) (h : string) :
  h ∈ hs → getProp h (emptyProps hs) = Some EmptyString.
Proof.
  intros Hin. unfold emptyProps. rewrite emptyProps_from.
  by destruct (decide (h ∈ hs)).
Qed.

Lemma isDigit_not_space (c : ascii) : isDigit c = true → isWhiteSpace c = false.
Proof.
  unfold isDigit, isWhiteSpace, in_range. generalize (nat_of_ascii c) as n.
  intros n. rewrite andb_true_iff, !Nat.leb_le. intros [? ?].
  rewrite !orb_false_iff, andb_false_iff, !Nat.leb_gt, !Nat.eqb_neq. lia.
Qed.

Lemma isDigit_not_sign (c : ascii) :
  isDigit c = true → ascii_eqb c "-" = false ∧ ascii_eqb c "+" = false.
Proof.
  unfold isDigit, in_range, ascii_eqb.
  rewrite andb_true_iff, !Nat.leb_le. intros [Hlo _].
  split; apply bool_decide_eq_false; intros ->; vm_compute in Hlo; lia.
Qed.

Lemma digitsFrom_numeral (s : string) (acc : Z) :
  allChars isDigit s = true →
  digitsFrom (Some acc) s = Some (numeralValue acc s).
Proof.
  revert acc. induction s as [|c t IH]; intros acc; [done|]. simpl.
  rewrite andb_true_iff. intros [Hc Ht]. unfold digitValue.
  fold (isDigit c). rewrite Hc. simpl. by rewrite IH.
Qed.

(** [parseInt] reads a decimal numeral as the number it denotes. *)
Lemma parseInt10_numeral (s : string) :
  isDecimalNumeral s = true → parseInt10 s = Some (numeralValue 0 s).
Proof.
  destruct s as [|c t]; [done|]. unfold isDecimalNumeral. simpl.
  rewrite andb_true_iff. intros [Hc Ht]. unfold parseInt10. simpl.
  rewrite (isDigit_not_space c Hc).
  destruct (isDigit_not_sign c Hc) as [-> ->]. simpl.
  unfold digitValue. fold (isDigit c). rewrite Hc. simpl.
  by rewrite digitsFrom_numeral.
Qed.

(** ** Deleting the selected row *)

(** C7: in edit mode, with a selection (an index above -1) the dataset
    loses exactly the element at that index, the rows before and after it
    staying in order, and the selection is cleared without any message;
    without a selection the only change is the message to the user. *)
Theorem handleF7_deletes_selected (st : State) :
  isEditMode st = true →
  let st' := handleF7 st in
  ((-1 < selectedRowIndex st)%Z →
   let i := Z.to_nat (selectedRowIndex st) in
   currentData st' = take i (currentData st) ++ drop (S i) (currentData st)
   ∧ (∀ row, currentData st !! i = Some row →
        currentData st = take i (currentData st) ++ row :: drop (S i) (currentData st)
        ∧ length (currentData st') + 1 = length (currentData st))
   ∧ selectedRowIndex st' = (-1)%Z
   ∧ alerts st' = alerts st)
  ∧ ((selectedRowIndex st ≤ -1)%Z → st' = alert msgNoRowSelected st).
Proof.
  intros Hedit st'. unfold st', handleF7. rewrite Hedit. simpl. split.
  - intros Hsel. rewrite (proj2 (Z.gtb_gt _ _)) by lia.
    cbn [filterTable renderTableBody setBody setSelected setData currentData
         selectedRowIndex alerts].
    split_and!; try done.
    + apply delete_take_drop.
    + intros row Hrow. split.
      * by rewrite <- (take_drop_middle _ _ _ Hrow) at 1.
      * rewrite length_delete by eauto.
        apply lookup_lt_Some in Hrow. lia.
  - intros Hsel. destruct (selectedRowIndex st >? -1)%Z eqn:Hgt; [|done].
    apply Z.gtb_gt in Hgt. lia.
Qed.

Lemma handleF7_deletes_selected_witness :
  let st' := handleF7 secondTopicSelected in
  let i := Z.to_nat (selectedRowIndex secondTopicSelected) in
  currentData st'
  = take i (currentData secondTopicSelected)
    ++ drop (S i) (currentData secondTopicSelected)
  ∧ (∀ row, currentData secondTopicSelected !! i = Some row →
       currentData secondTopicSelected
       = take i (currentData secondTopicSelected)
         ++ row :: drop (S i) (currentData secondTopicSelected)
       ∧ length (currentData st') + 1 = length (currentData secondTopicSelected))
  ∧ selectedRowIndex st' = (-1)%Z
  ∧ alerts st' = alerts secondTopicSelected.
Proof.
  apply (proj1 (handleF7_deletes_selected secondTopicSelected eq_refl)).
  vm_compute. reflexivity.
Defined.

(** ** Exit and save *)

Lemma setProp_fresh (key v : string) (ps : Props) :
  key ∉ ps.*1 → setProp key v ps = ps ++ [(key, v)].
Proof.
  induction ps as [|[k w] ps IH]; intros Hfresh; [done|]. simpl in *.
  apply not_elem_of_cons in Hfresh as [Hne Hfresh].
  rewrite decide_False by done. by rewrite IH.
Qed.

Lemma assignCells_zip (hs : list string) :
  NoDup hs →
  ∀ (cs : list Cell) (i : nat) (acc : Props),
    acc.*1 = take i hs → i + length cs ≤ length hs →
    assignCells hs i cs acc
    = acc ++ zip (drop i hs) ((λ c, trim (textContent c)) <$> cs).
Proof.
  intros Hnd. induction cs as [|c cs IH]; intros i acc Hacc Hlen.
  - simpl. by rewrite zip_with_nil_r, app_nil_r.
  - simpl in Hlen. destruct (lookup_lt_is_Some_2 hs i) as [h Hh]; [lia|].
    cbn [assignCells]. rewrite Hh. cbn [propKey toString].
    rewrite setProp_fresh.
    + rewrite IH.
      * rewrite (drop_S _ _ _ Hh), <- app_assoc. done.
      * rewrite fmap_app, Hacc. simpl. by rewrite (take_S_r _ _ _ Hh).
      * lia.
    + rewrite Hacc. intros [j Hj]%list_elem_of_lookup_1.
      pose proof (lookup_lt_Some _ _ _ Hj) as Hjlt. rewrite length_take in Hjlt.
      rewrite lookup_take_lt in Hj by lia.
      rewrite NoDup_alt in Hnd. specialize (Hnd _ _ _ Hj Hh). lia.
Qed.

Lemma readRow_props (hs : list string) (id : nat) (tr : TR) :
  NoDup hs → length (cells tr) = length hs →
  props (readRow hs id tr) = zip hs (cellTexts tr).
Proof.
  intros Hnd Hlen. unfold readRow, cellTexts. simpl.
  rewrite (assignCells_zip hs Hnd (cells tr) 0 []); [done..|lia].
Qed.

Lemma readRow_keys (hs : list string) (id : nat) (tr : TR) :
  NoDup hs → length (cells tr) = length hs →
  (props (readRow hs id tr)).*1 = hs.
Proof.
  intros Hnd Hlen. rewrite readRow_props by done.
  apply fst_zip. unfold cellTexts. rewrite length_fmap. lia.
Qed.

Lemma orEmpty_default (x : option string) : orEmpty x = default EmptyString x.
Proof. by destruct x as [[|c t]|]. Qed.

Lemma isBlankRow_spec (hs : list string) (row : Row) :
  isBlankRow hs row = true ↔ BlankRow hs row.
Proof.
  unfold isBlankRow, BlankRow, specCell. rewrite forallb_forall. split.
  - intros Hall h Hh. rewrite <- orEmpty_default.
    eapply bool_decide_eq_true_1, Hall. by apply list_elem_of_In.
  - intros Hall h Hh. apply bool_decide_eq_true_2. rewrite orEmpty_default.
    by apply Hall, list_elem_of_In.
Qed.

Lemma handleEscape_fields (st : State) :
  isEditMode st = true →
  currentData (handleEscape st) = updatedData st
  ∧ downloads (handleEscape st)
    = (dataFile (config st), stringify (updatedData st)) :: downloads st
  ∧ isEditMode (handleEscape st) = false
  ∧ alerts (handleEscape st) = msgDownload (dataFile (config st)) :: alerts st.
Proof. intros Hedit. unfold handleEscape. by rewrite Hedit. Qed.

Lemma reconcile_shown (st : State) (tr : TR) :
  wf st → tr ∈ tableBody st →
  ∃ id,
    reconcile (collectDomChanges (columnHeaders st) (nextId st) (tableBody st) ∅)
              (currentData st) !! originalIndex tr
    = Some (readRow (columnHeaders st) id tr).
Proof.
  intros Hwf Htr.
  assert (originalIndex tr < length (currentData st)) as Hlt.
  { pose proof (wf_bounds _ Hwf) as Hb. rewrite Forall_forall in Hb. auto. }
  apply list_elem_of_lookup_1 in Htr as [k Hk].
  destruct (lookup_lt_is_Some_2 _ _ Hlt) as [row Hrow].
  exists (nextId st + k). rewrite reconcile_lookup, Hrow. simpl.
  by rewrite (collect_lookup_shown _ _ (wf_indices _ Hwf) _ _ _ _ Hk).
Qed.

Lemma reconcile_hidden (st : State) (i : nat) (row : Row) :
  currentData st !! i = Some row → ¬ shownAt st i →
  reconcile (collectDomChanges (columnHeaders st) (nextId st) (tableBody st) ∅)
            (currentData st) !! i = Some row.
Proof.
  intros Hrow Hhidden. rewrite reconcile_lookup, Hrow. simpl.
  rewrite collect_lookup_other; [done|].
  intros tr Htr Hi. apply Hhidden. by exists tr.
Qed.

(** C2: leaving edit mode with Escape, every displayed row is replaced at
    the index it carries by a row made of the trimmed texts of its cells
    under the configured column names, every row that is not displayed
    stays as it was, then the rows blank in all configured columns are
    dropped; the result becomes the dataset, its formatted JSON text is
    offered for download under the name of the page's data file, and the
    page is back in view mode. *)
Theorem handleEscape_saves (st : State) :
  wf st →
  isEditMode st = true →
  let st' := handleEscape st in
  ∃ reconciled,
    length reconciled = length (currentData st)
    ∧ (∀ tr, tr ∈ tableBody st →
         ∃ row', reconciled !! originalIndex tr = Some row'
                 ∧ props row' = zip (columnHeaders st) (cellTexts tr))
    ∧ (∀ i row, currentData st !! i = Some row → ¬ shownAt st i →
         reconciled !! i = Some row)
    ∧ currentData st'
      = filter (λ row, negb (isBlankRow (columnHeaders st) row)) reconciled
    ∧ (∀ row, row ∈ currentData st'
              ↔ row ∈ reconciled ∧ ¬ BlankRow (columnHeaders st) row)
    ∧ downloads st'
      = (dataFile (config st), stringify (currentData st')) :: downloads st
    ∧ isEditMode st' = false.
Proof.
  intros Hwf Hedit st'.
  destruct (handleEscape_fields st Hedit) as (Hdata & Hdown & Hmode & _).
  fold st' in Hdata, Hdown, Hmode.
  exists (reconcile
            (collectDomChanges (columnHeaders st) (nextId st) (tableBody st) ∅)
            (currentData st)).
  split_and!.
  - apply length_reconcile.
  - intros tr Htr. destruct (reconcile_shown st tr Hwf Htr) as [id Hid].
    eexists. split; [done|]. apply readRow_props; [apply Hwf|].
    pose proof (wf_cells _ Hwf) as Hcells. rewrite Forall_forall in Hcells. auto.
  - apply reconcile_hidden.
  - by rewrite Hdata.
  - intros row. rewrite Hdata. unfold updatedData.
    rewrite list_elem_of_filter, <- isBlankRow_spec.
    destruct (isBlankRow (columnHeaders st) row); simpl.
    + split; [by intros [[] _] | by intros [_ []]].
    + split; [by intros [_ ?] | by intros [? _]].
  - by rewrite Hdown, Hdata.
  - done.
Qed.

Lemma Reachable_events (pageType : PageType) (outcome : option (list Props))
    (events : list Event) :
  Reachable (foldl step (initializePage pageType outcome blank) events).
Proof.
  induction events as [|e events IH] using rev_ind.
  - apply (reach_first pageType pageType outcome []).
  - rewrite foldl_app. by apply reach_step.
Qed.

Lemma hiddenRaggedRow_wf : wf hiddenRaggedRow.
Proof. apply Reachable_wf, Reachable_events. Qed.

Lemma handleEscape_saves_witness :
  let st := hiddenRaggedRow in
  let st' := handleEscape st in
  ∃ reconciled,
    length reconciled = length (currentData st)
    ∧ (∀ tr, tr ∈ tableBody st →
         ∃ row', reconciled !! originalIndex tr = Some row'
                 ∧ props row' = zip (columnHeaders st) (cellTexts tr))
    ∧ (∀ i row, currentData st !! i = Some row → ¬ shownAt st i →
         reconciled !! i = Some row)
    ∧ currentData st'
      = filter (λ row, negb (isBlankRow (columnHeaders st) row)) reconciled
    ∧ (∀ row, row ∈ currentData st'
              ↔ row ∈ reconciled ∧ ¬ BlankRow (columnHeaders st) row)
    ∧ downloads st'
      = (dataFile (config st), stringify (currentData st')) :: downloads st
    ∧ isEditMode st' = false.
Proof.
  apply (handleEscape_saves hiddenRaggedRow hiddenRaggedRow_wf). reflexivity.
Defined.

(** C3, as the code has it: the file offered on exit carries the name of
    the page's data file and the formatted JSON text of the new dataset, in
    which every object read off a displayed row has exactly the configured
    column names as keys, in their order, while an object of a row that was
    not displayed is the unchanged original with whatever keys it had; when
    every row is displayed all exported objects have exactly the configured
    keys. *)
Theorem exported_rows_keys (st : State) :
  wf st →
  isEditMode st = true →
  let st' := handleEscape st in
  downloads st'
  = (dataFile (config st), stringify (currentData st')) :: downloads st
  ∧ (∀ row, row ∈ currentData st' →
       (props row).*1 = columnHeaders st
       ∨ ∃ i, currentData st !! i = Some row ∧ ¬ shownAt st i)
  ∧ ((∀ i, i < length (currentData st) → shownAt st i) →
     Forall (λ row, (props row).*1 = columnHeaders st) (currentData st')).
Proof.
  intros Hwf Hedit st'.
  destruct (handleEscape_fields st Hedit) as (Hdata & Hdown & _).
  fold st' in Hdata, Hdown.
  assert (∀ row, row ∈ currentData st' →
            (props row).*1 = columnHeaders st
            ∨ ∃ i, currentData st !! i = Some row ∧ ¬ shownAt st i) as Hrows.
  { intros row. rewrite Hdata. unfold updatedData.
    rewrite list_elem_of_filter. intros [_ [i Hi]%list_elem_of_lookup_1].
    destruct (reconcile_cases st i row Hi) as [Horig | (k & tr & Hk & Hidx & ->)].
    - destruct (decide (i ∈ originalIndex <$> tableBody st)) as [Hin|Hout].
      + apply list_elem_of_fmap in Hin as (tr & -> & Htr).
        destruct (reconcile_shown st tr Hwf Htr) as [id Hid].
        rewrite Hid in Hi. injection Hi as <-. left.
        apply readRow_keys; [apply Hwf|].
        pose proof (wf_cells _ Hwf) as Hcells. rewrite Forall_forall in Hcells. auto.
      + right. exists i. split; [done|]. intros (tr & Htr & <-).
        apply Hout, list_elem_of_fmap. by exists tr.
    - left. apply readRow_keys; [apply Hwf|].
      pose proof (wf_cells _ Hwf) as Hcells. rewrite Forall_forall in Hcells.
      apply Hcells. by eapply list_elem_of_lookup_2. }
  split_and!.
  - by rewrite Hdown, Hdata.
  - done.
  - intros Hall. apply Forall_forall. intros row Hrow.
    destruct (Hrows row Hrow) as [Hkeys | (i & Hi & Hhidden)]; [done|].
    destruct Hhidden. apply Hall. by eapply lookup_lt_Some.
Qed.

Lemma exported_rows_keys_witness :
  let st := hiddenRaggedRow in
  let st' := handleEscape st in
  downloads st'
  = (dataFile (config st), stringify (currentData st')) :: downloads st
  ∧ (∀ row, row ∈ currentData st' →
       (props row).*1 = columnHeaders st
       ∨ ∃ i, currentData st !! i = Some row ∧ ¬ shownAt st i)
  ∧ ((∀ i, i < length (currentData st) → shownAt st i) →
     Forall (λ row, (props row).*1 = columnHeaders st) (currentData st')).
Proof.
  apply (exported_rows_keys hiddenRaggedRow hiddenRaggedRow_wf). reflexivity.
Defined.

(** C3, counterexample to the claim as stated: with the second row hidden
    by the filter, the exported array holds that row with its own keys
    [topic] and [note], which are not the configured column names. *)
Lemma exported_hidden_row_keeps_its_keys :
  let st' := handleEscape hiddenRaggedRow in
  let kept := {| rid := 1; props := [("topic", "JCL"); ("note", "draft")] |} in
  Reachable hiddenRaggedRow
  ∧ isEditMode hiddenRaggedRow = true
  ∧ columnHeaders hiddenRaggedRow = ["Sno"; "topic"; "link"]
  ∧ currentData st' !! 1 = Some kept
  ∧ (props kept).*1 ≠ columnHeaders hiddenRaggedRow
  ∧ downloads st' = [("linkedin-data.json", stringify (currentData st'))]
  ∧ includes "note" (stringify (currentData st')) = true.
Proof.
  split; [apply Reachable_events|]. vm_compute. split_and!; done.
Qed.

Lemma rendered_rows_carry_their_position_witness :
  let st := hiddenRaggedRow in
  IndexConsistent st (filteredData st)
    (tableBody (renderTableBody (filteredData st) st))
  ∧ IndexConsistent st (currentData st)
      (tableBody (renderTableBody (currentData st) st))
  ∧ IndexConsistent st (filteredData st) (tableBody (filterTable st)).
Proof.
  apply (rendered_rows_carry_their_position hiddenRaggedRow
           (filteredData hiddenRaggedRow)).
  - apply hiddenRaggedRow_wf.
  - apply list_subseteq_filter.
Defined.

(** ** The tracked index in use *)

Lemma NoDup_delete_lookup {A : Type} (l : list A) (i : nat) (x : A) :
  NoDup l → l !! i = Some x → x ∉ delete i l.
Proof.
  intros Hnd Hi. rewrite delete_take_drop.
  rewrite <- (take_drop_middle _ _ _ Hi) in Hnd.
  apply NoDup_app in Hnd as (_ & Hdisj & Htail).
  apply NoDup_cons in Htail as [Hx _].
  intros [Hin|Hin]%elem_of_app; [|done].
  apply (Hdisj _ Hin). by left.
Qed.

(** X24: clicking a rendered row and pressing F7 removes the row found at
    the index the table row carries, and no other. *)
Lemma clicked_row_is_deleted (st : State) (k : nat) (tr : TR) (row : Row) :
  wf st → isEditMode st = true →
  tableBody st !! k = Some tr →
  currentData st !! originalIndex tr = Some row →
  currentData (handleF7 (clickRow k st)) = delete (originalIndex tr) (currentData st)
  ∧ row ∉ currentData (handleF7 (clickRow k st)).
Proof.
  intros Hwf Hedit Hk Hrow.
  assert (currentData (handleF7 (clickRow k st))
          = delete (originalIndex tr) (currentData st)) as Heq.
  { unfold clickRow. rewrite Hedit, Hk. unfold handleF7.
    cbn [isEditMode setSelected selectedRowIndex negb].
    rewrite Hedit. cbn [negb].
    rewrite (proj2 (Z.gtb_gt _ _)) by lia.
    cbn [filterTable renderTableBody setBody setSelected setData currentData].
    by rewrite Nat2Z.id. }
  split; [done|]. rewrite Heq.
  apply NoDup_delete_lookup; [|done]. apply NoDup_rows, Hwf.
Qed.

(** ** The exported text *)

(** The text offered for download for one row of the LinkedIn list. *)
Lemma stringify_example :
  stringify [ {| rid := 0; props := [("Sno", "1"); ("topic", "JCL")] |} ]
  = arrayJoin (str1 nl)
      [ "[";
        "  {";
        "    " +:+ quoteJSON "Sno" +:+ ": " +:+ quoteJSON "1" +:+ ",";
        "    " +:+ quoteJSON "topic" +:+ ": " +:+ quoteJSON "JCL";
        "  }";
        "]" ]
  ∧ stringify [] = "[]"
  ∧ quoteJSON ("a" +:+ str1 nl +:+ "b") = str1 dquote +:+ "a\nb" +:+ str1 dquote.
Proof. vm_compute. done. Qed.

(** ** Modes, and what each event may change *)

Lemma filterTable_frame (st : State) :
  config (filterTable st) = config st
  ∧ columnHeaders (filterTable st) = columnHeaders st
  ∧ isEditMode (filterTable st) = isEditMode st
  ∧ selectedRowIndex (filterTable st) = selectedRowIndex st
  ∧ alerts (filterTable st) = alerts st
  ∧ downloads (filterTable st) = downloads st.
Proof. done. Qed.

Lemma handleF6_edit_frame (answer : option string) (st : State) :
  isEditMode st = true →
  config (handleF6 answer st) = config st
  ∧ columnHeaders (handleF6 answer st) = columnHeaders st
  ∧ isEditMode (handleF6 answer st) = true
  ∧ selectedRowIndex (handleF6 answer st) = selectedRowIndex st
  ∧ downloads (handleF6 answer st) = downloads st.
Proof.
  intros Hedit. unfold handleF6. rewrite Hedit. simpl.
  destruct answer as [numRowsStr|]; [|done].
  destruct (parseInt10 numRowsStr) as [numRows|]; [|done].
  destruct (numRows <? 1)%Z; [done|].
  cbn [renderTableBody setBody config columnHeaders isEditMode selectedRowIndex
       downloads].
  destruct (addRows_frame (Z.to_nat numRows) st)
    as (_ & -> & -> & -> & _ & -> & _ & ->).
  done.
Qed.

Lemma handleF6_view_cases (answer : option string) (st : State) :
  isEditMode st = false →
  (answer = Some EDIT_PASSWORD
   ∧ handleF6 answer st = alert msgEditEnabled (setEditMode true st))
  ∨ (answer ≠ Some EDIT_PASSWORD
     ∧ currentData (handleF6 answer st) = currentData st
     ∧ tableBody (handleF6 answer st) = tableBody st
     ∧ isEditMode (handleF6 answer st) = false
     ∧ selectedRowIndex (handleF6 answer st) = selectedRowIndex st
     ∧ downloads (handleF6 answer st) = downloads st
     ∧ config (handleF6 answer st) = config st
     ∧ columnHeaders (handleF6 answer st) = columnHeaders st).
Proof.
  intros Hview. unfold handleF6. rewrite Hview. simpl.
  destruct answer as [password|].
  - destruct (decide (password = EDIT_PASSWORD)) as [->|Hne]; [by left|].
    right. split_and!; try done. congruence.
  - right. by split_and!.
Qed.

(** X1: the mode changes in two ways only.  It goes from view to edit by
    the F6 key answered with the password, a step that leaves the dataset,
    the rendered table and the selection as they are and shows one message;
    it goes from edit to view by the Escape key or by the selection of a
    page. *)
Theorem mode_changes (st : State) (e : Event) :
  isEditMode (step st e) ≠ isEditMode st →
  (isEditMode st = false
   ∧ e = KeyF6 (Some EDIT_PASSWORD)
   ∧ currentData (step st e) = currentData st
   ∧ tableBody (step st e) = tableBody st
   ∧ selectedRowIndex (step st e) = selectedRowIndex st
   ∧ alerts (step st e) = msgEditEnabled :: alerts st)
  ∨ (isEditMode st = true
     ∧ (e = KeyEscape ∨ ∃ pageType outcome, e = SelectPage pageType outcome)).
Proof.
  intros Hchange. destruct (isEditMode st) eqn:Hmode.
  - right. split; [done|]. destruct e as [pt o|answer| | |k|values|k j c]; simpl in *.
    + right. by exists pt, o.
    + destruct (handleF6_edit_frame answer st Hmode) as (_ & _ & Hm & _). congruence.
    + by left.
    + exfalso. apply Hchange. unfold handleF7. rewrite Hmode. simpl.
      by destruct (selectedRowIndex st >? -1)%Z.
    + exfalso. apply Hchange. unfold clickRow. rewrite Hmode.
      by destruct (tableBody st !! k).
    + done.
    + exfalso. apply Hchange. unfold editCell. rewrite Hmode.
      by destruct (tableBody st !! k).
  - left. split; [done|]. destruct e as [pt o|answer| | |k|values|k j c]; simpl in *.
    + done.
    + destruct (handleF6_view_cases answer st Hmode)
        as [[-> Heq] | (_ & _ & _ & Hm & _)]; [|congruence].
      by rewrite Heq.
    + exfalso. apply Hchange. unfold handleEscape. by rewrite Hmode.
    + exfalso. apply Hchange. unfold handleF7. by rewrite Hmode.
    + exfalso. apply Hchange. unfold clickRow. by rewrite Hmode.
    + done.
    + exfalso. apply Hchange. unfold editCell. by rewrite Hmode.
Qed.

Lemma mode_changes_witness :
  let st := initializePage Linkedin (Some twoTopics) blank in
  let e := KeyF6 (Some EDIT_PASSWORD) in
  (isEditMode st = false
   ∧ e = KeyF6 (Some EDIT_PASSWORD)
   ∧ currentData (step st e) = currentData st
   ∧ tableBody (step st e) = tableBody st
   ∧ selectedRowIndex (step st e) = selectedRowIndex st
   ∧ alerts (step st e) = msgEditEnabled :: alerts st)
  ∨ (isEditMode st = true
     ∧ (e = KeyEscape ∨ ∃ pageType outcome, e = SelectPage pageType outcome)).
Proof.
  apply (mode_changes (initializePage Linkedin (Some twoTopics) blank)
           (KeyF6 (Some EDIT_PASSWORD))).
  vm_compute. discriminate.
Defined.

(** X2: in view mode no key, click or typing changes the dataset, the
    selection or the files offered, and only typing in a filter input
    changes the rendered table; the selection of a page apart. *)
Theorem view_mode_is_read_only (st : State) (e : Event) :
  isEditMode st = false →
  (∀ pageType outcome, e ≠ SelectPage pageType outcome) →
  currentData (step st e) = currentData st
  ∧ downloads (step st e) = downloads st
  ∧ selectedRowIndex (step st e) = selectedRowIndex st
  ∧ ((∀ values, e ≠ Keyup values) → tableBody (step st e) = tableBody st).
Proof.
  intros Hview Hpage. destruct e as [pt o|answer| | |k|values|k j c]; simpl.
  - by destruct (Hpage pt o).
  - destruct (handleF6_view_cases answer st Hview)
      as [[-> ->] | (_ & -> & -> & _ & -> & -> & _)]; done.
  - unfold handleEscape. by rewrite Hview.
  - unfold handleF7. by rewrite Hview.
  - unfold clickRow. by rewrite Hview.
  - split_and!; try done. intros Hno. by destruct (Hno values).
  - unfold editCell. by rewrite Hview.
Qed.

Lemma view_mode_is_read_only_witness :
  let st := initializePage Linkedin (Some twoTopics) blank in
  let e := KeyF7 in
  currentData (step st e) = currentData st
  ∧ downloads (step st e) = downloads st
  ∧ selectedRowIndex (step st e) = selectedRowIndex st
  ∧ ((∀ values, e ≠ Keyup values) → tableBody (step st e) = tableBody st).
Proof.
  apply (view_mode_is_read_only (initializePage Linkedin (Some twoTopics) blank)
           KeyF7); [reflexivity | discriminate].
Defined.

(** X3: a file is offered for download by the Escape key in edit mode and
    by nothing else; it is then one file, named after the page's data file
    and holding the text of the dataset as the step leaves it, and the page
    is back in view mode. *)
Theorem downloads_only_on_save (st : State) (e : Event) :
  downloads (step st e) ≠ downloads st →
  e = KeyEscape
  ∧ isEditMode st = true
  ∧ downloads (step st e)
    = (dataFile (config st), stringify (currentData (step st e))) :: downloads st
  ∧ isEditMode (step st e) = false.
Proof.
  intros Hchange. destruct e as [pt o|answer| | |k|values|k j c]; simpl in *.
  - done.
  - exfalso. apply Hchange. destruct (isEditMode st) eqn:Hmode.
    + by destruct (handleF6_edit_frame answer st Hmode) as (_ & _ & _ & _ & ->).
    + destruct (handleF6_view_cases answer st Hmode)
        as [[_ ->] | (_ & _ & _ & _ & _ & -> & _)]; done.
  - destruct (isEditMode st) eqn:Hmode.
    + destruct (handleEscape_fields st Hmode) as (Hdata & Hdown & Hm & _).
      split_and!; try done. by rewrite Hdown, Hdata.
    + exfalso. apply Hchange. unfold handleEscape. by rewrite Hmode.
  - exfalso. apply Hchange. unfold handleF7. destruct (isEditMode st); [|done].
    simpl. by destruct (selectedRowIndex st >? -1)%Z.
  - exfalso. apply Hchange. unfold clickRow. destruct (isEditMode st); [|done].
    by destruct (tableBody st !! k).
  - done.
  - exfalso. apply Hchange. unfold editCell. destruct (isEditMode st); [|done].
    by destruct (tableBody st !! k).
Qed.

Lemma downloads_only_on_save_witness :
  let st := hiddenRaggedRow in
  let e := KeyEscape in
  e = KeyEscape
  ∧ isEditMode st = true
  ∧ downloads (step st e)
    = (dataFile (config st), stringify (currentData (step st e))) :: downloads st
  ∧ isEditMode (step st e) = false.
Proof.
  apply (downloads_only_on_save hiddenRaggedRow KeyEscape).
  vm_compute. discriminate.
Defined.

(** ** What is displayed *)

Lemma indexOf_None (data : list Row) (row : Row) :
  indexOf data row = None ↔ rid row ∉ rid <$> data.
Proof.
  induction data as [|r data IH]; simpl.
  - split; [intros _; apply not_elem_of_nil | done].
  - destruct (decide (rid r = rid row)) as [Heq|Hne].
    + split; [done|]. intros Hno. destruct Hno. rewrite Heq. by left.
    + destruct (indexOf data row) as [i|] eqn:Hi; simpl.
      * split; [done|]. intros Hno. exfalso.
        apply not_elem_of_cons in Hno as [_ Hno]. by apply IH in Hno.
      * split; [|done]. intros _. apply not_elem_of_cons. split; [done|].
        by apply IH.
Qed.

Lemma render_all (st : State) :
  NoDup (rid <$> currentData st) →
  tableBody (renderTableBody (currentData st) st)
  = imap (rowAt st) (currentData st).
Proof.
  intros Hnd. rewrite tableBody_render by done.
  apply list_eq. intros i. rewrite list_lookup_fmap, list_lookup_imap.
  destruct (currentData st !! i) as [row|] eqn:Hi; [|done]. simpl.
  unfold rendered, rowAt, positionOf. by rewrite (indexOf_lookup _ _ _ Hnd Hi).
Qed.

Lemma imap_rowAt_indices (st : State) (data : list Row) :
  originalIndex <$> imap (rowAt st) data = seq 0 (length data).
Proof.
  apply list_eq. intros i. rewrite list_lookup_fmap, list_lookup_imap.
  destruct (data !! i) as [row|] eqn:Hi; simpl.
  - symmetry. apply lookup_seq_lt. by eapply lookup_lt_Some.
  - symmetry. apply lookup_seq_ge. by apply lookup_ge_None.
Qed.

Lemma filter_all {A : Type} (P : A → Prop) `{!∀ x, Decision (P x)} (l : list A) :
  Forall P l → filter P l = l.
Proof.
  induction 1 as [|x l Hx _ IH]; [done|].
  by rewrite filter_cons_True, IH.
Qed.

Lemma everyFrom_empty (hs : list string) (row : Row) (fs : list string) :
  Forall (λ f, f = EmptyString) fs →
  ∀ index, everyFrom index hs row (toLowerCase <$> fs) = true.
Proof.
  induction 1 as [|f fs -> _ IH]; intros index; [done|].
  cbn [fmap list_fmap everyFrom toLowerCase]. by rewrite includes_empty, IH.
Qed.

(** X4: with every filter input empty the filter keeps the whole dataset
    in order, and in a dataset of distinct row objects the table then shows
    one row per record, the one at position k carrying the index k. *)
Theorem empty_filters_show_everything (st : State) :
  Forall (λ f, f = EmptyString) (filterInputs st) →
  NoDup (rid <$> currentData st) →
  filteredData st = currentData st
  ∧ tableBody (filterTable st) = imap (rowAt st) (currentData st)
  ∧ originalIndex <$> tableBody (filterTable st)
    = seq 0 (length (currentData st)).
Proof.
  intros Hempty Hnd.
  assert (filteredData st = currentData st) as Hall.
  { unfold filteredData. apply filter_all. apply Forall_forall.
    intros row _. apply Is_true_true. by apply everyFrom_empty. }
  unfold filterTable. rewrite Hall, render_all by done.
  by rewrite imap_rowAt_indices.
Qed.

Lemma empty_filters_show_everything_witness :
  let st := editingTwoTopics in
  filteredData st = currentData st
  ∧ tableBody (filterTable st) = imap (rowAt st) (currentData st)
  ∧ originalIndex <$> tableBody (filterTable st)
    = seq 0 (length (currentData st)).
Proof.
  apply (empty_filters_show_everything editingTwoTopics).
  - vm_compute. repeat constructor.
  - apply (wf_rows editingTwoTopics), Reachable_wf, Reachable_events.
Defined.

Lemma freshRows_NoDup (id : nat) (loaded : list Props) :
  NoDup (rid <$> freshRows id loaded).
Proof.
  unfold freshRows. apply NoDup_alt. intros i j x Hi Hj.
  rewrite list_lookup_fmap, list_lookup_imap in Hi, Hj.
  destruct (loaded !! i); [|done]. destruct (loaded !! j); [|done].
  simplify_eq/=. lia.
Qed.

(** X5: initialising a page replaces the dataset by the loaded rows, in
    order and as new objects, makes one empty filter input per column as the
    header rows have them, and shows every loaded row, the k-th with index k
    and formatted cells; after a failed load the dataset and the table are
    empty and the user has been told. *)
Theorem initializePage_shows_loaded_rows (pageType : PageType)
    (loaded : list Props) (st : State) :
  let cfg := pageConfigs pageType in
  let st' := initializePage pageType (Some loaded) st in
  let failed := initializePage pageType None st in
  props <$> currentData st' = loaded
  ∧ filterInputs st' = filterRow (renderTableHeaders (headers cfg))
  ∧ headerRow (renderTableHeaders (headers cfg)) = columnHeaders st'
  ∧ tableBody st' = imap (rowAt st') (currentData st')
  ∧ originalIndex <$> tableBody st' = seq 0 (length loaded)
  ∧ isEditMode st' = false
  ∧ alerts st' = alerts st
  ∧ currentData failed = []
  ∧ tableBody failed = []
  ∧ alerts failed = loadAlert (dataFile cfg) :: alerts st.
Proof.
  intros cfg st' failed.
  assert (props <$> currentData st' = loaded) as Hprops.
  { cbn. unfold freshRows. apply list_eq. intros i.
    rewrite list_lookup_fmap, list_lookup_imap. by destruct (loaded !! i). }
  assert (tableBody st' = imap (rowAt st') (currentData st')) as Hbody.
  { unfold st', initializePage.
    rewrite render_all by (cbn; apply freshRows_NoDup). done. }
  split_and!; try done.
  - change (filterInputs st') with (replicate (length (headers cfg)) EmptyString).
    unfold renderTableHeaders. cbn [filterRow].
    induction (headers cfg) as [|h hs IH]; [done|].
    cbn [length replicate]. by rewrite IH.
  - unfold renderTableHeaders. cbn [headerRow]. apply list_fmap_id.
  - rewrite Hbody, imap_rowAt_indices. by rewrite <- Hprops, length_fmap.
Qed.



Lemma renderRow_Some (st : State) (row : Row) (tr : TR) :
  renderRow st row = Some tr →
  originalIndex tr < length (currentData st)
  ∧ length (cells tr) = length (columnHeaders st)
  ∧ ∃ r, currentData st !! originalIndex tr = Some r ∧ rid r = rid row.
Proof.
  unfold renderRow. destruct (indexOf (currentData st) row) as [i|] eqn:Hi; [|done].
  intros [= <-]. simpl. apply indexOf_Some in Hi as (r & Hr & Hrid).
  split_and!.
  - by eapply lookup_lt_Some.
  - by rewrite length_fmap.
  - by exists r.
Qed.

Lemma omap_length_filter {A B : Type} (f : A → option B) (l : list A) :
  length (omap f l) = length (filter (λ x, is_Some (f x)) l).
Proof.
  induction l as [|x l IH]; [done|]. csimpl. rewrite filter_cons.
  destruct (decide (is_Some (f x))) as [[y Hy]|Hno].
  - rewrite Hy. simpl. by rewrite IH.
  - destruct (f x) as [y|]; [|done]. destruct Hno. by exists y.
Qed.

(** X7: whatever rows are handed to [renderTableBody], a row that is not
    an object of the dataset gets no table row, every table row made carries
    an index inside the dataset at which a record of the same identity
    sits, and has one cell per column. *)
Theorem renderTableBody_skips_foreign_rows (data : list Row) (st : State) :
  let trs := tableBody (renderTableBody data st) in
  length trs = length (filter (λ row, rid row ∈ rid <$> currentData st) data)
  ∧ Forall (λ tr, originalIndex tr < length (currentData st)
                  ∧ length (cells tr) = length (columnHeaders st))
           trs
  ∧ currentData (renderTableBody data st) = currentData st.
Proof.
  intros trs. unfold trs. cbn [renderTableBody setBody tableBody currentData].
  split_and!; [| |done].
  - rewrite omap_length_filter. f_equal. apply list_filter_iff.
    intros row. split.
    + intros [tr Htr]. destruct (decide (rid row ∈ rid <$> currentData st)); [done|].
      unfold renderRow in Htr.
      by rewrite (proj2 (indexOf_None _ _)) in Htr.
    + intros Hin. unfold renderRow.
      destruct (indexOf (currentData st) row) as [i|] eqn:Hi; [by eexists|].
      by apply indexOf_None in Hi.
  - apply Forall_forall. intros tr Htr.
    apply list_elem_of_omap in Htr as (row & _ & Hrow).
    apply renderRow_Some in Hrow as (? & ? & _). done.
Qed.

Lemma step_keeps_page (st : State) (e : Event) :
  (∃ pageType, columnHeaders st = headers (pageConfigs pageType)) →
  (-1 ≤ selectedRowIndex st)%Z →
  (∃ pageType, columnHeaders (step st e) = headers (pageConfigs pageType))
  ∧ (-1 ≤ selectedRowIndex (step st e))%Z.
Proof.
  intros Hhs Hsel. destruct e as [pt o|answer| | |k|values|k j c]; simpl.
  - split; [by exists pt | done].
  - destruct (isEditMode st) eqn:Hmode.
    + by destruct (handleF6_edit_frame answer st Hmode) as (_ & -> & _ & -> & _).
    + destruct (handleF6_view_cases answer st Hmode)
        as [[_ ->] | (_ & _ & _ & _ & -> & _ & _ & ->)]; done.
  - unfold handleEscape. by destruct (isEditMode st).
  - unfold handleF7. destruct (isEditMode st); [|done]. simpl.
    by destruct (selectedRowIndex st >? -1)%Z.
  - unfold clickRow. destruct (isEditMode st); [|done].
    destruct (tableBody st !! k); [|done]. split; [done|]. simpl. lia.
  - done.
  - unfold editCell. destruct (isEditMode st); [|done].
    by destruct (tableBody st !! k).
Qed.

Lemma Reachable_page (st : State) :
  Reachable st →
  (∃ pageType, columnHeaders st = headers (pageConfigs pageType))
  ∧ (-1 ≤ selectedRowIndex st)%Z.
Proof.
  induction 1 as [pageType requested outcome shown | st e _ [Hhs Hsel]
                 | st pageType _ IH | st requested outcome Hreach _].
  - split; [by exists pageType | done].
  - by apply step_keeps_page.
  - done.
  - destruct (Reachable_config_wf st Hreach) as [[pageType Hcfg] _].
    split; [|done]. exists pageType. simpl. by rewrite Hcfg.
Qed.

(** X8: with data files that are arrays of objects with string values or
    fail to load, every state the page is in between two handlers, from
    the completion of its first load on and whether or not the load of a
    selected page is still pending, keeps the following: the records of the
    dataset are distinct objects, the rendered rows carry distinct indices
    that lie inside the dataset and have one cell per column, the
    configuration is one of the two pages, the column names are those of
    one of the two pages, and the selection is -1 or a natural number; and
    a load that completes sets the column names of the configuration as it
    is then. *)
Theorem reachable_states_are_well_formed (st : State) :
  Reachable st →
  wf st
  ∧ (∃ pageType, config st = pageConfigs pageType)
  ∧ (∃ pageType, columnHeaders st = headers (pageConfigs pageType))
  ∧ (-1 ≤ selectedRowIndex st)%Z
  ∧ ∀ requested outcome,
      columnHeaders (initializePageResume requested outcome st)
      = headers (config (initializePageResume requested outcome st)).
Proof.
  intros Hreach. destruct (Reachable_config_wf st Hreach) as [Hcfg Hwf].
  destruct (Reachable_page st Hreach) as [Hhs Hsel]. done.
Qed.

Lemma reachable_states_are_well_formed_witness :
  let st := hiddenRaggedRow in
  wf st
  ∧ (∃ pageType, config st = pageConfigs pageType)
  ∧ (∃ pageType, columnHeaders st = headers (pageConfigs pageType))
  ∧ (-1 ≤ selectedRowIndex st)%Z
  ∧ ∀ requested outcome,
      columnHeaders (initializePageResume requested outcome st)
      = headers (config (initializePageResume requested outcome st)).
Proof.
  apply (reachable_states_are_well_formed hiddenRaggedRow).
  apply Reachable_events.
Defined.

(** ** The filter, column by column *)

Lemma everyFrom_lookup (hs : list string) (row : Row) (fvs : list string) :
  ∀ index,
    everyFrom index hs row fvs = true
    ↔ ∀ j fv, fvs !! j = Some fv →
        includes fv
          (toLowerCase
             (toString (getProp (propKey (hs !! (index + j))) (props row))))
        = true.
Proof.
  induction fvs as [|fv0 fvs IH]; intros index.
  - split; [by intros _ j fv Hj | done].
  - cbn [everyFrom]. rewrite andb_true_iff, IH. split.
    + intros [H0 Hrest] [|j] fv Hj; simpl in Hj.
      * simplify_eq. by rewrite Nat.add_0_r.
      * rewrite <- Nat.add_succ_comm. by apply Hrest.
    + intros Hall. split.
      * specialize (Hall 0 fv0 eq_refl). by rewrite Nat.add_0_r in Hall.
      * intros j fv Hj. rewrite Nat.add_succ_comm. by apply (Hall (S j)).
Qed.

(** X9: a record is kept by the filter exactly when, for every filter
    input, the lower-cased input occurs in the lower-cased text of the
    record's value under the column of the same position, where the text of
    a missing value is the word undefined, and an input beyond the last
    column is compared with the value under the key of that name. *)
Theorem filteredData_by_column (st : State) (row : Row) :
  row ∈ filteredData st
  ↔ row ∈ currentData st
    ∧ ∀ j f, filterInputs st !! j = Some f →
        contains (toLowerCase f)
          (toLowerCase
             (toString (getProp (propKey (columnHeaders st !! j)) (props row)))).
Proof.
  unfold filteredData, rowMatches. rewrite list_elem_of_filter, Is_true_true.
  rewrite everyFrom_lookup. split.
  - intros [Hall Hin]. split; [done|]. intros j f Hj. apply includes_spec.
    apply (Hall j). by rewrite list_lookup_fmap, Hj.
  - intros [Hin Hall]. split; [|done]. intros j fv Hj.
    rewrite list_lookup_fmap in Hj.
    destruct (filterInputs st !! j) as [f|] eqn:Hf; [|done].
    simpl in Hj. injection Hj as <-. apply includes_spec. by apply Hall.
Qed.

(** ** What the row count prompt accepts *)

Lemma trimStart_white (ws s : string) :
  allChars isWhiteSpace ws = true → trimStart (ws +:+ s) = trimStart s.
Proof.
  induction ws as [|c ws IH]; [done|]. intros Hall. simpl in Hall.
  apply andb_true_iff in Hall as [Hc Hws].
  rewrite app_cons. cbn [trimStart]. rewrite Hc. by apply IH.
Qed.

Lemma trimStart_all_white (ws : string) :
  allChars isWhiteSpace ws = true → trimStart ws = EmptyString.
Proof.
  induction ws as [|c ws IH]; [done|]. simpl.
  rewrite andb_true_iff. intros [-> Hws]. by apply IH.
Qed.

Lemma digitValue_nonneg (c : ascii) (d : Z) : digitValue c = Some d → (0 ≤ d)%Z.
Proof.
  unfold digitValue. destruct (in_range 48 57 (nat_of_ascii c)); [|done].
  intros [= <-]. lia.
Qed.

Lemma digitsFrom_nonneg (s : string) :
  ∀ acc r, (∀ a, acc = Some a → (0 ≤ a)%Z) →
           digitsFrom acc s = Some r → (0 ≤ r)%Z.
Proof.
  induction s as [|c t IH]; intros acc r Hacc; simpl.
  - intros ->. by apply Hacc.
  - destruct (digitValue c) as [d|] eqn:Hd.
    + apply IH. intros a [= <-]. apply digitValue_nonneg in Hd.
      destruct acc as [a0|]; simpl; [|lia]. specialize (Hacc a0 eq_refl). lia.
    + intros ->. by apply Hacc.
Qed.

Lemma digitValue_isDigit (c : ascii) :
  digitValue c = if isDigit c then Some (Z.of_nat (nat_of_ascii c - 48)) else None.
Proof. reflexivity. Qed.

Lemma digitsFrom_prefix (d rest : string) :
  allChars isDigit d = true → startsWithDigit rest = false →
  ∀ acc, digitsFrom (Some acc) (d +:+ rest) = Some (numeralValue acc d).
Proof.
  intros Hd Hrest. induction d as [|c d IH]; intros acc.
  - rewrite app_empty_l. destruct rest as [|x rest]; [done|]. simpl in *.
    by rewrite digitValue_isDigit, Hrest.
  - simpl in Hd. apply andb_true_iff in Hd as [Hc Hd]. rewrite app_cons. simpl.
    rewrite digitValue_isDigit, Hc. simpl. by apply IH.
Qed.

Lemma digitsFrom_prefix_None (d rest : string) :
  isDecimalNumeral d = true → startsWithDigit rest = false →
  digitsFrom None (d +:+ rest) = Some (numeralValue 0 d).
Proof.
  destruct d as [|c d]; [done|]. unfold isDecimalNumeral. intros Hall Hrest.
  simpl in Hall. apply andb_true_iff in Hall as [Hc Hd].
  rewrite app_cons. cbn [digitsFrom numeralValue].
  rewrite digitValue_isDigit, Hc. simpl. by apply digitsFrom_prefix.
Qed.

(** [parseInt] on white space, a numeral and any text that does not go on
    with a digit: the sign decides between the number and its opposite. *)
Lemma parseInt10_leading (ws d rest : string) :
  allChars isWhiteSpace ws = true →
  isDecimalNumeral d = true → startsWithDigit rest = false →
  parseInt10 (ws +:+ d +:+ rest) = Some (numeralValue 0 d)
  ∧ parseInt10 (ws +:+ String "+" (d +:+ rest)) = Some (numeralValue 0 d)
  ∧ parseInt10 (ws +:+ String "-" (d +:+ rest)) = Some (- numeralValue 0 d)%Z.
Proof.
  intros Hws Hd Hrest. unfold parseInt10.
  split_and!; rewrite trimStart_white by done.
  - destruct d as [|c d]; [done|]. rewrite app_cons.
    assert (isDigit c = true) as Hc.
    { unfold isDecimalNumeral in Hd. simpl in Hd. by apply andb_true_iff in Hd as [? _]. }
    cbn [trimStart]. rewrite (isDigit_not_space c Hc).
    destruct (isDigit_not_sign c Hc) as [-> ->].
    rewrite <- app_cons. by apply digitsFrom_prefix_None.
  - change (trimStart (String "+" (d +:+ rest))) with (String "+" (d +:+ rest)).
    change (ascii_eqb "+" "-") with false. change (ascii_eqb "+" "+") with true.
    cbv iota. by apply digitsFrom_prefix_None.
  - change (trimStart (String "-" (d +:+ rest))) with (String "-" (d +:+ rest)).
    change (ascii_eqb "-" "-") with true.
    cbv iota. by rewrite digitsFrom_prefix_None.
Qed.

Lemma handleF6_accepts (st : State) (numRowsStr : string) (n : Z) :
  isEditMode st = true → parseInt10 numRowsStr = Some n → (1 ≤ n)%Z →
  currentData (handleF6 (Some numRowsStr) st)
  = currentData (addRows (Z.to_nat n) st)
  ∧ alerts (handleF6 (Some numRowsStr) st) = alerts st.
Proof.
  intros Hedit Hparse Hn. unfold handleF6. rewrite Hedit, Hparse. simpl.
  rewrite (proj2 (Z.ltb_ge n 1)) by done.
  cbn [renderTableBody setBody currentData alerts].
  by destruct (addRows_frame (Z.to_nat n) st) as (_ & _ & _ & _ & -> & _).
Qed.

Lemma handleF6_refuses (st : State) (numRowsStr : string) :
  isEditMode st = true →
  (∀ n, parseInt10 numRowsStr = Some n → (n < 1)%Z) →
  handleF6 (Some numRowsStr) st = alert msgInvalidNumber st.
Proof.
  intros Hedit Hparse. unfold handleF6. rewrite Hedit. simpl.
  destruct (parseInt10 numRowsStr) as [n|]; [|done].
  by rewrite (proj2 (Z.ltb_lt n 1)) by auto.
Qed.

(** C5, as the code has it: in edit mode the answer to the prompt goes
    through [parseInt]; when that yields an integer N of at least 1 and the
    array has room for N more rows, exactly N rows are appended, each with
    every configured column empty and no other key, and nothing is
    reported; [parseInt] yields N, up to 2^53, for white space, an optional
    plus sign, the decimal numeral of N and any text that does not go on
    with a digit; when it yields NaN or a number below 1 the only change is
    the message to the user; a cancelled prompt changes nothing. *)
Theorem handleF6_adds_rows (st : State) (numRowsStr : string) :
  isEditMode st = true →
  let st' := handleF6 (Some numRowsStr) st in
  (∀ n, parseInt10 numRowsStr = Some n → (1 ≤ n)%Z →
     (Z.of_nat (length (currentData st)) + n ≤ maxArrayLength)%Z →
     ∃ newRows,
       currentData st' = currentData st ++ newRows
       ∧ length newRows = Z.to_nat n
       ∧ Forall (λ row, props row = emptyProps (columnHeaders st)
                        ∧ ∀ h, h ∈ columnHeaders st →
                               getProp h (props row) = Some EmptyString)
                newRows
       ∧ alerts st' = alerts st)
  ∧ (∀ ws d rest,
       allChars isWhiteSpace ws = true →
       isDecimalNumeral d = true →
       startsWithDigit rest = false →
       (numeralValue 0 d ≤ maxExactInteger)%Z →
       numRowsStr = ws +:+ d +:+ rest
       ∨ numRowsStr = ws +:+ String "+" (d +:+ rest) →
       parseInt10 numRowsStr = Some (numeralValue 0 d))
  ∧ (parseInt10 numRowsStr = None
     ∨ (∃ n, parseInt10 numRowsStr = Some n ∧ (n < 1)%Z) →
     st' = alert msgInvalidNumber st)
  ∧ handleF6 None st = st.
Proof.
  intros Hedit st'. unfold st', handleF6. rewrite Hedit. simpl. split_and!.
  - intros n -> Hn _. rewrite (proj2 (Z.ltb_ge n 1)) by done.
    cbn [renderTableBody setBody currentData alerts].
    destruct (addRows_frame (Z.to_nat n) st) as (_ & _ & _ & _ & -> & _).
    rewrite addRows_currentData. eexists. split_and!; [done| |  |done].
    + by rewrite length_fmap, length_seq.
    + apply Forall_fmap, Forall_forall. intros i _. simpl. split; [done|].
      apply emptyProps_lookup.
  - intros ws d rest Hws Hd Hrest _.
    destruct (parseInt10_leading ws d rest Hws Hd Hrest) as (Hplain & Hplus & _).
    by intros [-> | ->].
  - intros [-> | (n & -> & Hn)]; [done|].
    by rewrite (proj2 (Z.ltb_lt n 1)) by done.
  - done.
Qed.

Lemma handleF6_adds_rows_witness :
  let st' := handleF6 (Some "2") editingTwoTopics in
  ∃ newRows,
    currentData st' = currentData editingTwoTopics ++ newRows
    ∧ length newRows = 2
    ∧ Forall (λ row, props row = emptyProps (columnHeaders editingTwoTopics)
                     ∧ ∀ h, h ∈ columnHeaders editingTwoTopics →
                            getProp h (props row) = Some EmptyString)
             newRows
    ∧ alerts st' = alerts editingTwoTopics.
Proof.
  apply (proj1 (handleF6_adds_rows editingTwoTopics "2" eq_refl) 2%Z);
    [reflexivity | lia | vm_compute; discriminate].
Defined.

(** C5, counterexample to the claim as stated: the answer [3abc] is no
    positive integer, yet three rows are appended and nothing is reported. *)
Lemma handleF6_accepts_trailing_text :
  let st' := handleF6 (Some "3abc") editingTwoTopics in
  isEditMode editingTwoTopics = true
  ∧ isDecimalNumeral "3abc" = false
  ∧ currentData st' ≠ currentData editingTwoTopics
  ∧ length (currentData st') = length (currentData editingTwoTopics) + 3
  ∧ alerts st' = alerts editingTwoTopics.
Proof.
  split_and!; try (vm_compute; reflexivity).
  intros Heq. apply (f_equal length) in Heq. vm_compute in Heq. discriminate Heq.
Qed.

(** X10: in edit mode the row count may be preceded by white space and a
    plus sign and followed by any text that does not go on with a digit:
    the digits alone decide, and when the array has room for the number of
    rows they denote, that many rows are appended without a message. *)
Theorem handleF6_reads_leading_number (st : State) (ws d rest : string) :
  isEditMode st = true →
  allChars isWhiteSpace ws = true →
  isDecimalNumeral d = true →
  startsWithDigit rest = false →
  (1 ≤ numeralValue 0 d)%Z →
  (Z.of_nat (length (currentData st)) + numeralValue 0 d ≤ maxArrayLength)%Z →
  let grown (st' : State) :=
    length (currentData st')
    = length (currentData st) + Z.to_nat (numeralValue 0 d)
    ∧ take (length (currentData st)) (currentData st') = currentData st
    ∧ alerts st' = alerts st in
  grown (handleF6 (Some (ws +:+ d +:+ rest)) st)
  ∧ grown (handleF6 (Some (ws +:+ String "+" (d +:+ rest))) st).
Proof.
  intros Hedit Hws Hd Hrest Hpos _ grown.
  destruct (parseInt10_leading ws d rest Hws Hd Hrest) as (Hplain & Hplus & _).
  assert (∀ s, parseInt10 s = Some (numeralValue 0 d) → grown (handleF6 (Some s) st))
    as Hgrown.
  { intros s Hs. destruct (handleF6_accepts st s _ Hedit Hs Hpos) as [Hdata Halerts].
    unfold grown. rewrite Hdata, addRows_currentData. split_and!.
    - by rewrite length_app, length_fmap, length_seq.
    - by rewrite take_app_length.
    - done. }
  split; by apply Hgrown.
Qed.

Lemma handleF6_reads_leading_number_witness :
  let st := editingTwoTopics in
  let grown (st' : State) :=
    length (currentData st')
    = length (currentData st) + Z.to_nat (numeralValue 0 "3")
    ∧ take (length (currentData st)) (currentData st') = currentData st
    ∧ alerts st' = alerts st in
  grown (handleF6 (Some (" " +:+ "3" +:+ " rows")) st)
  ∧ grown (handleF6 (Some (" " +:+ String "+" ("3" +:+ " rows"))) st).
Proof.
  apply (handleF6_reads_leading_number editingTwoTopics " " "3" " rows");
    [reflexivity | reflexivity | reflexivity | reflexivity
    | vm_compute; discriminate | vm_compute; discriminate].
Defined.

(** X11: in edit mode an answer is refused with the message, the state
    otherwise unchanged, when after leading white space it is empty, or
    starts with a minus sign, or is a numeral of zero followed by text that
    does not go on with a digit. *)
Theorem handleF6_refuses_blank_negative_zero (st : State) (ws t d rest : string) :
  isEditMode st = true →
  allChars isWhiteSpace ws = true →
  isDecimalNumeral d = true →
  numeralValue 0 d = 0%Z →
  startsWithDigit rest = false →
  handleF6 (Some ws) st = alert msgInvalidNumber st
  ∧ handleF6 (Some (ws +:+ String "-" t)) st = alert msgInvalidNumber st
  ∧ handleF6 (Some (ws +:+ d +:+ rest)) st = alert msgInvalidNumber st.
Proof.
  intros Hedit Hws Hd Hzero Hrest. split_and!; apply handleF6_refuses; try done.
  - intros n. unfold parseInt10. by rewrite trimStart_all_white.
  - intros n. unfold parseInt10. rewrite trimStart_white by done. simpl.
    destruct (digitsFrom None t) as [r|] eqn:Hr; [|done]. simpl. intros [= <-].
    assert (0 ≤ r)%Z by (eapply digitsFrom_nonneg; [|done]; done). lia.
  - intros n. destruct (parseInt10_leading ws d rest Hws Hd Hrest) as (-> & _).
    intros [= <-]. lia.
Qed.

Lemma handleF6_refuses_blank_negative_zero_witness :
  let st := editingTwoTopics in
  handleF6 (Some " ") st = alert msgInvalidNumber st
  ∧ handleF6 (Some (" " +:+ String "-" "5")) st = alert msgInvalidNumber st
  ∧ handleF6 (Some (" " +:+ "00" +:+ "x")) st = alert msgInvalidNumber st.
Proof.
  apply (handleF6_refuses_blank_negative_zero editingTwoTopics " " "5" "00" "x");
    reflexivity.
Defined.

(** ** Trimming *)

Lemma trimEnd_idempotent (s : string) : trimEnd (trimEnd s) = trimEnd s.
Proof.
  induction s as [|c t IH]; [done|]. cbn [trimEnd].
  destruct (trimEnd t) as [|x y] eqn:Ht.
  - destruct (isWhiteSpace c) eqn:Hc; [done|]. unfold str1. cbn [trimEnd].
    by rewrite Hc.
  - cbn [trimEnd]. cbn [trimEnd] in IH. by rewrite IH.
Qed.

Lemma trimStart_trimEnd (s : string) :
  trimStart s = s → trimStart (trimEnd s) = trimEnd s.
Proof.
  destruct s as [|c t]; [done|]. cbn [trimStart].
  destruct (isWhiteSpace c) eqn:Hc.
  - intros Heq. exfalso. apply (f_equal String.length) in Heq.
    assert (∀ u, String.length (trimStart u) ≤ String.length u) as Hle.
    { induction u as [|d u IHu]; [done|]. simpl. destruct (isWhiteSpace d); simpl; lia. }
    specialize (Hle t). simpl in Heq. lia.
  - intros _. cbn [trimEnd]. destruct (trimEnd t); [|by cbn [trimStart]; rewrite Hc].
    rewrite Hc. unfold str1. cbn [trimStart]. by rewrite Hc.
Qed.

Lemma trimStart_idempotent (s : string) : trimStart (trimStart s) = trimStart s.
Proof.
  induction s as [|c t IH]; [done|]. cbn [trimStart].
  destruct (isWhiteSpace c) eqn:Hc; [done|]. cbn [trimStart]. by rewrite Hc.
Qed.

(** Trimming twice is trimming once. *)
Lemma trim_idempotent (s : string) : trim (trim s) = trim s.
Proof.
  unfold trim. rewrite (trimStart_trimEnd (trimStart s)).
  - apply trimEnd_idempotent.
  - apply trimStart_idempotent.
Qed.

(** ** What a save writes *)

Lemma getProp_elem (key v : string) (ps : Props) :
  getProp key ps = Some v → (key, v) ∈ ps.
Proof.
  induction ps as [|[k w] ps IH]; [done|]. simpl.
  destruct (decide (k = key)) as [->|_].
  - intros [= ->]. by left.
  - intros Hget. right. by apply IH.
Qed.

(** Where a row of the saved dataset comes from. *)
Lemma saved_row_origin (st : State) (row : Row) :
  wf st → row ∈ updatedData st →
  (∃ i, currentData st !! i = Some row ∧ ¬ shownAt st i)
  ∨ (∃ tr, tr ∈ tableBody st
           ∧ props row = zip (columnHeaders st) (cellTexts tr)).
Proof.
  intros Hwf. unfold updatedData.
  rewrite list_elem_of_filter. intros [_ [i Hi]%list_elem_of_lookup_1].
  pose proof (wf_cells _ Hwf) as Hcells. rewrite Forall_forall in Hcells.
  destruct (reconcile_cases st i row Hi) as [Horig | (k & tr & Hk & Hidx & ->)].
  - destruct (decide (i ∈ originalIndex <$> tableBody st)) as [Hin|Hout].
    + apply list_elem_of_fmap in Hin as (tr & -> & Htr).
      destruct (reconcile_shown st tr Hwf Htr) as [id Hid].
      rewrite Hid in Hi. injection Hi as <-. right. exists tr. split; [done|].
      apply readRow_props; [apply Hwf | auto].
    + left. exists i. split; [done|]. intros (tr & Htr & <-).
      apply Hout, list_elem_of_fmap. by exists tr.
  - right. exists tr. assert (tr ∈ tableBody st) by by eapply list_elem_of_lookup_2.
    split; [done|]. apply readRow_props; [apply Hwf | auto].
Qed.

(** X12: after a save every record is either a record that was not
    displayed, kept as it was, or a record read off the table, and such a
    record has values under configured column names only, none of which
    starts or ends with white space. *)
Theorem saved_values_are_trimmed (st : State) (row : Row) :
  wf st →
  isEditMode st = true →
  row ∈ currentData (handleEscape st) →
  (∃ i, currentData st !! i = Some row ∧ ¬ shownAt st i)
  ∨ (∀ h v, getProp h (props row) = Some v →
       h ∈ columnHeaders st ∧ trim v = v).
Proof.
  intros Hwf Hedit Hrow.
  destruct (handleEscape_fields st Hedit) as (Hdata & _). rewrite Hdata in Hrow.
  destruct (saved_row_origin st row Hwf Hrow) as [Hhidden | (tr & Htr & Hprops)];
    [by left|].
  right. intros h v Hget. apply getProp_elem in Hget. rewrite Hprops in Hget.
  apply elem_of_zip_l in Hget as Hh. apply elem_of_zip_r in Hget as Hv.
  split; [done|]. unfold cellTexts in Hv.
  apply list_elem_of_fmap in Hv as (c & -> & _). apply trim_idempotent.
Qed.

Lemma saved_values_are_trimmed_witness :
  let st := hiddenRaggedRow in
  let row := {| rid := 1; props := [("topic", "JCL"); ("note", "draft")] |} in
  (∃ i, currentData st !! i = Some row ∧ ¬ shownAt st i)
  ∨ (∀ h v, getProp h (props row) = Some v →
       h ∈ columnHeaders st ∧ trim v = v).
Proof.
  apply (saved_values_are_trimmed hiddenRaggedRow
           {| rid := 1; props := [("topic", "JCL"); ("note", "draft")] |}
           hiddenRaggedRow_wf); [reflexivity|].
  apply (list_elem_of_lookup_2 _ 1). vm_compute. reflexivity.
Defined.

Lemma getProp_zip (f : string → string) (hs : list string) (h : string) :
  h ∈ hs → getProp h (zip hs (f <$> hs)) = Some (f h).
Proof.
  induction hs as [|h0 hs IH]; intros Hin; [by apply elem_of_nil in Hin|].
  simpl. destruct (decide (h0 = h)) as [->|Hne]; [done|].
  apply IH. by apply elem_of_cons in Hin as [->|?].
Qed.

Lemma isBlankRow_props (hs : list string) (row : Row) :
  isBlankRow hs row = blankProps hs (props row).
Proof. reflexivity. Qed.

Lemma forallb_ext_on {A : Type} (f g : A → bool) (l : list A) :
  (∀ x, x ∈ l → f x = g x) → forallb f l = forallb g l.
Proof.
  induction l as [|x l IH]; intros Hfg; [done|]. simpl.
  rewrite (Hfg x) by left. rewrite IH; [done|]. intros y Hy. apply Hfg. by right.
Qed.

(** A record is blank after the trimming of a save exactly when it was
    blank before. *)
Lemma blankProps_savedProps (hs : list string) (ps : Props) :
  blankProps hs (savedProps hs ps) = blankProps hs ps.
Proof.
  unfold blankProps. apply forallb_ext_on. intros h Hh.
  unfold savedProps. rewrite (getProp_zip _ _ _ Hh), orEmpty_default. simpl.
  by rewrite trim_idempotent.
Qed.

Lemma filter_fmap_props (hs : list string) (l : list Row) :
  props <$> filter (λ row, negb (isBlankRow hs row)) l
  = filter (λ ps, negb (blankProps hs ps)) (props <$> l).
Proof.
  induction l as [|row l IH]; [done|].
  rewrite fmap_cons, (filter_cons _ (props row)), (filter_cons _ row), <- IH.
  rewrite isBlankRow_props.
  by destruct (decide (negb (blankProps hs (props row)))).
Qed.

Lemma filter_savedProps (hs : list string) (l : list Props) :
  filter (λ ps, negb (blankProps hs ps)) (savedProps hs <$> l)
  = savedProps hs <$> filter (λ ps, negb (blankProps hs ps)) l.
Proof.
  induction l as [|ps l IH]; [done|].
  rewrite fmap_cons, (filter_cons _ (savedProps hs ps)), (filter_cons _ ps), IH.
  rewrite blankProps_savedProps.
  by destruct (decide (negb (blankProps hs ps))).
Qed.

Lemma cellTexts_rowAt (st : State) (i : nat) (row : Row) :
  isEditMode st = true →
  cellTexts (rowAt st i row)
  = (λ h, trim (orEmpty (getProp h (props row)))) <$> columnHeaders st.
Proof.
  intros Hedit. unfold cellTexts, rowAt. cbn [cells].
  rewrite <- list_fmap_compose. apply list_fmap_ext. intros _ h _.
  unfold renderCell. simpl. by rewrite Hedit.
Qed.

(** The dataset a save leaves when the table is the untouched edit-mode
    rendering of the whole dataset. *)
Lemma save_of_full_rendering (st : State) :
  wf st → isEditMode st = true →
  tableBody st = imap (rowAt st) (currentData st) →
  props <$> updatedData st
  = savedProps (columnHeaders st)
      <$> filter (λ ps, negb (blankProps (columnHeaders st) ps))
                 (props <$> currentData st).
Proof.
  intros Hwf Hedit Hbody. unfold updatedData.
  rewrite filter_fmap_props, <- filter_savedProps. f_equal.
  apply list_eq. intros i.
  rewrite !list_lookup_fmap, reconcile_lookup.
  destruct (currentData st !! i) as [row|] eqn:Hi; [|done]. simpl.
  assert (tableBody st !! i = Some (rowAt st i row)) as Htr.
  { by rewrite Hbody, list_lookup_imap, Hi. }
  pose proof (collect_lookup_shown (columnHeaders st) (tableBody st)
                (wf_indices _ Hwf) (nextId st) ∅ i _ Htr) as Hdom.
  cbn [rowAt originalIndex] in Hdom. rewrite Hdom. cbn [from_option id]. f_equal.
  rewrite readRow_props.
  - by rewrite cellTexts_rowAt.
  - apply Hwf.
  - simpl. by rewrite length_fmap.
Qed.

(** X13: when the table is the untouched edit-mode rendering of the whole
    dataset, a save keeps the records that are not blank, in order, each
    reduced to the configured columns with trimmed values, a missing value
    becoming the empty text and any other key being dropped. *)
Theorem save_of_untouched_table (st : State) :
  wf st →
  isEditMode st = true →
  tableBody st = imap (rowAt st) (currentData st) →
  props <$> currentData (handleEscape st)
  = savedProps (columnHeaders st)
      <$> filter (λ ps, negb (blankProps (columnHeaders st) ps))
                 (props <$> currentData st).
Proof.
  intros Hwf Hedit Hbody.
  destruct (handleEscape_fields st Hedit) as (-> & _).
  by apply save_of_full_rendering.
Qed.

Lemma save_of_untouched_table_witness :
  let st := handleF6 (Some "1") hiddenRaggedRow in
  props <$> currentData (handleEscape st)
  = savedProps (columnHeaders st)
      <$> filter (λ ps, negb (blankProps (columnHeaders st) ps))
                 (props <$> currentData st).
Proof.
  apply (save_of_untouched_table (handleF6 (Some "1") hiddenRaggedRow)).
  - apply handleF6_wf, hiddenRaggedRow_wf.
  - reflexivity.
  - vm_compute. reflexivity.
Defined.





(** ** The selection after a save *)

(** X15: a save does not clear the selection.  After Escape, entering edit
    mode again and pressing F7 removes, without a click and without a
    message about a missing selection, the element of the saved dataset at
    the index selected before the save (none when the saved dataset is
    shorter). *)
Theorem selection_survives_save (st : State) :
  isEditMode st = true →
  (-1 < selectedRowIndex st)%Z →
  let saved := handleEscape st in
  let back := handleF6 (Some EDIT_PASSWORD) saved in
  selectedRowIndex saved = selectedRowIndex st
  ∧ selectedRowIndex back = selectedRowIndex st
  ∧ currentData (handleF7 back)
    = delete (Z.to_nat (selectedRowIndex st)) (currentData saved)
  ∧ alerts (handleF7 back) = msgEditEnabled :: alerts saved.
Proof.
  intros Hedit Hsel saved back.
  destruct (handleEscape_fields st Hedit) as (_ & _ & Hview & _). fold saved in Hview.
  assert (selectedRowIndex saved = selectedRowIndex st) as Hsaved.
  { unfold saved, handleEscape. by rewrite Hedit. }
  assert (back = alert msgEditEnabled (setEditMode true saved)) as Hback.
  { destruct (handleF6_view_cases (Some EDIT_PASSWORD) saved Hview)
      as [[_ Heq] | [Hne _]]; [done | by destruct Hne]. }
  split_and!; [done | by rewrite Hback | |].
  - rewrite Hback. unfold handleF7.
    cbn [alert setEditMode isEditMode selectedRowIndex currentData negb].
    rewrite Hsaved, (proj2 (Z.gtb_gt _ _)) by lia. done.
  - rewrite Hback. unfold handleF7.
    cbn [alert setEditMode isEditMode selectedRowIndex currentData negb].
    rewrite Hsaved, (proj2 (Z.gtb_gt _ _)) by lia. done.
Qed.

Lemma selection_survives_save_witness :
  let st := secondTopicSelected in
  let saved := handleEscape st in
  let back := handleF6 (Some EDIT_PASSWORD) saved in
  selectedRowIndex saved = selectedRowIndex st
  ∧ selectedRowIndex back = selectedRowIndex st
  ∧ currentData (handleF7 back)
    = delete (Z.to_nat (selectedRowIndex st)) (currentData saved)
  ∧ alerts (handleF7 back) = msgEditEnabled :: alerts saved.
Proof.
  apply (selection_survives_save secondTopicSelected); [reflexivity|].
  vm_compute. reflexivity.
Defined.

(** ** Tab navigation *)

(** X16: in edit mode the Tab key on the i-th cell of the body moves the
    focus to the next cell and, with Shift, to the previous one, never
    outside the cells and without wrapping at either end; Shift+Tab undoes
    Tab; the default action is prevented even when nothing is focused, also
    when the focus is on an element that is no cell. *)
Theorem tab_moves_within_the_cells (st : State) (i : nat) :
  isEditMode st = true →
  i < length (allCells st) →
  let n := length (allCells st) in
  focusCall (tableKeydown "Tab" false (BodyCell i) st)
  = (if decide (i + 1 < n) then Some (i + 1) else None)
  ∧ focusCall (tableKeydown "Tab" true (BodyCell i) st)
    = (if decide (0 < i) then Some (i - 1) else None)
  ∧ (∀ j, focusCall (tableKeydown "Tab" false (BodyCell i) st) = Some j →
       focusCall (tableKeydown "Tab" true (BodyCell j) st) = Some i)
  ∧ (∀ shiftKey active j,
       focusCall (tableKeydown "Tab" shiftKey active st) = Some j → j < n)
  ∧ (∀ shiftKey active,
       defaultPrevented (tableKeydown "Tab" shiftKey active st) = true)
  ∧ tableKeydown "Tab" false NoCell st
    = {| focusCall := None; defaultPrevented := true |}.
Proof.
  intros Hedit Hi n.
  assert (∀ shiftKey active,
            tableKeydown "Tab" shiftKey active st
            = match active with
              | NoCell => {| focusCall := None; defaultPrevented := true |}
              | _ =>
                  let currentIndex :=
                    match active with BodyCell i => Z.of_nat i | _ => (-1)%Z end in
                  let nextIndex :=
                    if shiftKey then (currentIndex - 1)%Z else (currentIndex + 1)%Z in
                  if (0 <=? nextIndex)%Z && (nextIndex <? Z.of_nat n)%Z
                  then {| focusCall := Some (Z.to_nat nextIndex);
                          defaultPrevented := true |}
                  else {| focusCall := None; defaultPrevented := true |}
              end) as Hstep.
  { intros shiftKey active. unfold tableKeydown. by rewrite Hedit. }
  assert (focusCall (tableKeydown "Tab" false (BodyCell i) st)
          = (if decide (i + 1 < n) then Some (i + 1) else None)) as Hnext.
  { rewrite Hstep. cbv zeta.
    destruct (decide (i + 1 < n)) as [Hlt|Hge].
    - rewrite (proj2 (Z.leb_le _ _)), (proj2 (Z.ltb_lt _ _)) by lia.
      simpl. f_equal. lia.
    - rewrite (proj2 (Z.ltb_ge _ _)) by lia. by rewrite andb_false_r. }
  split_and!.
  - done.
  - rewrite Hstep. cbv zeta. destruct (decide (0 < i)) as [Hpos|Hzero].
    + rewrite (proj2 (Z.leb_le _ _)), (proj2 (Z.ltb_lt _ _)) by lia.
      simpl. f_equal. lia.
    + by rewrite (proj2 (Z.leb_gt _ _)) by lia.
  - intros j. rewrite Hnext. destruct (decide (i + 1 < n)); [|done].
    intros [= <-]. rewrite Hstep. cbv zeta.
    rewrite (proj2 (Z.leb_le _ _)), (proj2 (Z.ltb_lt _ _)) by lia.
    simpl. f_equal. lia.
  - intros shiftKey active j. rewrite Hstep.
    destruct active as [k| |]; cbv zeta; [| |done].
    + destruct (_ && _) eqn:Hin; [|done]. apply andb_true_iff in Hin as [H0 Hn].
      apply Z.leb_le in H0. apply Z.ltb_lt in Hn. intros [= <-]. lia.
    + destruct (_ && _) eqn:Hin; [|done]. apply andb_true_iff in Hin as [H0 Hn].
      apply Z.leb_le in H0. apply Z.ltb_lt in Hn. intros [= <-]. lia.
  - intros shiftKey active. rewrite Hstep.
    destruct active as [k| |]; cbv zeta; [| |done]; by destruct (_ && _).
  - by rewrite Hstep.
Qed.

Lemma tab_moves_within_the_cells_witness :
  let st := editingTwoTopics in
  let i := 2 in
  let n := length (allCells st) in
  focusCall (tableKeydown "Tab" false (BodyCell i) st)
  = (if decide (i + 1 < n) then Some (i + 1) else None)
  ∧ focusCall (tableKeydown "Tab" true (BodyCell i) st)
    = (if decide (0 < i) then Some (i - 1) else None)
  ∧ (∀ j, focusCall (tableKeydown "Tab" false (BodyCell i) st) = Some j →
       focusCall (tableKeydown "Tab" true (BodyCell j) st) = Some i)
  ∧ (∀ shiftKey active j,
       focusCall (tableKeydown "Tab" shiftKey active st) = Some j → j < n)
  ∧ (∀ shiftKey active,
       defaultPrevented (tableKeydown "Tab" shiftKey active st) = true)
  ∧ tableKeydown "Tab" false NoCell st
    = {| focusCall := None; defaultPrevented := true |}.
Proof.
  apply (tab_moves_within_the_cells editingTwoTopics 2); [reflexivity|].
  vm_compute. lia.
Defined.

(** ** Splitting and joining lines *)

Lemma splitLinesFrom_cons (b : bool) (s : string) :
  ∃ p ps, splitLinesFrom b s = p :: ps.
Proof.
  revert b. induction s as [|c t IH]; intros b; [by eexists _, _|]. simpl.
  destruct (isLineBreak c).
  - destruct b; [apply IH | by eexists _, _].
  - destruct (IH false) as (p & ps & ->). by eexists _, _.
Qed.

Lemma arrayJoin_cons_char (sep : string) (c : ascii) (p : string) (ps : list string) :
  arrayJoin sep (String c p :: ps) = String c (arrayJoin sep (p :: ps)).
Proof. by destruct ps. Qed.

Lemma arrayJoin_cons2 (sep x y : string) (rest : list string) :
  arrayJoin sep (x :: y :: rest) = x +:+ sep +:+ arrayJoin sep (y :: rest).
Proof. reflexivity. Qed.

Lemma dropBreaks_id (s : string) : startsWithBreak s = false → dropBreaks s = s.
Proof. destruct s as [|c t]; [done|]. simpl. by intros ->. Qed.

(** Joining the lines of a text whose breaks are single LFs gives the text
    back. *)
Lemma join_splitLines (s : string) :
  loneBreaks s = true → arrayJoin (str1 nl) (splitLines s) = s.
Proof.
  unfold splitLines. induction s as [|c t IH]; [done|].
  cbn [loneBreaks]. rewrite !andb_true_iff, !negb_true_iff.
  intros [[Hcr Hrun] Ht]. specialize (IH Ht). cbn [splitLinesFrom].
  destruct (isLineBreak c) eqn:Hc.
  - simpl in Hrun. rewrite splitLinesFrom_true, dropBreaks_id by done.
    destruct (splitLinesFrom_cons false t) as (p & ps & Hsplit).
    rewrite Hsplit in IH |- *. rewrite arrayJoin_cons2, IH.
    unfold isLineBreak in Hc. rewrite Hcr, orb_false_r in Hc.
    apply ascii_eqb_true in Hc as ->. done.
  - destruct (splitLinesFrom_cons false t) as (p & ps & Hsplit).
    rewrite Hsplit in IH |- *. by rewrite arrayJoin_cons_char, IH.
Qed.

(** X17: a value that is no link, holds // and a line break, has single
    LFs as its only line breaks and no line whose trimmed form starts with
    slash, slash, space is shown in a preformatted block exactly as it
    is. *)
Theorem multi_line_value_shown_as_is (value : string) :
  startsWith "http://" value = false →
  startsWith "https://" value = false →
  contains "//" value →
  contains (str1 nl) value →
  loneBreaks value = true →
  Forall (λ line, isCommentLine line = false) (splitLines value) →
  formatCellContent value = Pre value.
Proof.
  intros Hhttp Hhttps Hsl%includes_spec Hnl%includes_spec Hlone Hlines.
  unfold formatCellContent. rewrite Hhttp, Hhttps, Hsl, Hnl. simpl.
  rewrite filter_all.
  - by rewrite join_splitLines.
  - eapply Forall_impl; [done|]. intros line ->. done.
Qed.

Lemma multi_line_value_shown_as_is_witness :
  let value := "//STEP1 EXEC PGM=IEFBR14" +:+ str1 nl +:+ "//DD1 DD DUMMY" in
  formatCellContent value = Pre value.
Proof.
  apply (multi_line_value_shown_as_is
           ("//STEP1 EXEC PGM=IEFBR14" +:+ str1 nl +:+ "//DD1 DD DUMMY")).
  - reflexivity.
  - reflexivity.
  - by exists EmptyString, ("STEP1 EXEC PGM=IEFBR14" +:+ str1 nl +:+ "//DD1 DD DUMMY").
  - by exists "//STEP1 EXEC PGM=IEFBR14", "//DD1 DD DUMMY".
  - reflexivity.
  - vm_compute. repeat constructor.
Defined.

Lemma noBreak_startsWithBreak (p : string) :
  noBreak p = true → startsWithBreak p = false.
Proof.
  destruct p as [|c p]; [done|]. unfold noBreak. simpl.
  rewrite andb_true_iff, negb_true_iff. by intros [-> _].
Qed.

Lemma innerPieces_cons (p : string) (rest : list string) :
  innerPieces (p :: rest) = true
  ↔ noBreak p = true ∧ (rest ≠ [] → p ≠ EmptyString) ∧ innerPieces rest = true.
Proof.
  destruct rest as [|q rest].
  - simpl. split; [by intros -> | by intros [-> _]].
  - cbn [innerPieces]. rewrite !andb_true_iff, negb_true_iff, bool_decide_eq_false.
    split.
    + intros [[Hp Hne] Hrest]. split_and!; done.
    + intros (Hp & Hne & Hrest). split_and!; [done | by apply Hne | done].
Qed.

Lemma splitPieces_cons (p : string) (rest : list string) :
  splitPieces (p :: rest) = true ↔ noBreak p = true ∧ innerPieces rest = true.
Proof.
  destruct rest as [|q rest].
  - simpl. split; [by intros -> | by intros [-> _]].
  - cbn [splitPieces]. by rewrite andb_true_iff.
Qed.

Lemma innerPieces_join_start (q : string) (rest : list string) :
  innerPieces (q :: rest) = true →
  startsWithBreak (arrayJoin (str1 nl) (q :: rest)) = false.
Proof.
  intros (Hq & Hne & _)%innerPieces_cons. destruct rest as [|r rest].
  - by apply noBreak_startsWithBreak.
  - rewrite arrayJoin_cons2. destruct q as [|c q]; [by destruct Hne|].
    apply noBreak_startsWithBreak in Hq. by rewrite app_cons.
Qed.

Lemma splitLines_join_step (p q : string) (rest : list string) :
  noBreak p = true → innerPieces (q :: rest) = true →
  splitLines (arrayJoin (str1 nl) (p :: q :: rest))
  = p :: splitLines (arrayJoin (str1 nl) (q :: rest)).
Proof.
  intros Hp Hrest. rewrite arrayJoin_cons2. apply splitLines_more; try done.
  by apply innerPieces_join_start.
Qed.

Lemma splitLines_join_inner (ls : list string) :
  innerPieces ls = true → ls ≠ [] →
  splitLines (arrayJoin (str1 nl) ls) = ls.
Proof.
  induction ls as [|p ls IH]; [done|]. intros Hall _.
  apply innerPieces_cons in Hall as (Hp & _ & Hrest).
  destruct ls as [|q rest]; [by apply splitLines_noBreak|].
  rewrite splitLines_join_step by done. by rewrite IH.
Qed.

(** Splitting the join of pieces that a split may leave gives them back. *)
Lemma splitLines_join (ls : list string) :
  splitPieces ls = true → splitLines (arrayJoin (str1 nl) ls) = ls.
Proof.
  destruct ls as [|p ls]; [done|]. intros [Hp Hrest]%splitPieces_cons.
  destruct ls as [|q rest]; [by apply splitLines_noBreak|].
  rewrite splitLines_join_step by done. by rewrite splitLines_join_inner.
Qed.

Lemma LineSplit_pieces (s : string) (ls : list string) :
  LineSplit s ls →
  splitPieces ls = true ∧ (startsWithBreak s = false → innerPieces ls = true).
Proof.
  induction 1 as [p Hp | p run rest ps Hp Hne Hrun Hrest _ [IH1 IH2]].
  - by split.
  - specialize (IH2 Hrest). split.
    + apply splitPieces_cons. by split.
    + intros Hstart. apply innerPieces_cons. split_and!; [done| |done].
      intros _ ->. rewrite app_empty_l in Hstart.
      destruct run as [|c run]; [done|]. rewrite app_cons in Hstart.
      unfold allBreak in Hrun. simpl in Hrun, Hstart.
      apply andb_true_iff in Hrun as [Hc _]. congruence.
Qed.

Lemma innerPieces_filter (P : string → Prop) `{!∀ x, Decision (P x)}
    (ls : list string) :
  innerPieces ls = true → innerPieces (filter P ls) = true.
Proof.
  induction ls as [|p ls IH]; [done|].
  intros (Hp & Hne & Hrest)%innerPieces_cons. specialize (IH Hrest).
  rewrite filter_cons. destruct (decide (P p)); [|done].
  apply innerPieces_cons. split_and!; [done| |done].
  intros Hfilter. apply Hne. intros ->. by destruct Hfilter.
Qed.

Lemma splitPieces_filter (P : string → Prop) `{!∀ x, Decision (P x)}
    (ls : list string) :
  splitPieces ls = true → filter P ls ≠ [] → splitPieces (filter P ls) = true.
Proof.
  destruct ls as [|p ls]; [done|]. intros [Hp Hrest]%splitPieces_cons.
  pose proof (innerPieces_filter P ls Hrest) as Hfiltered.
  rewrite filter_cons. destruct (decide (P p)).
  - intros _. apply splitPieces_cons. by split.
  - intros Hne. destruct (filter P ls) as [|q rest]; [done|].
    apply innerPieces_cons in Hfiltered as (Hq & _ & Hrest').
    apply splitPieces_cons. by split.
Qed.

(** X18: formatting is stable on what it shows: the visible text of a
    cell, taken as a value and formatted again, shows the same text. *)
Theorem visible_text_is_stable (value : string) :
  textContent (formatCellContent (textContent (formatCellContent value)))
  = textContent (formatCellContent value).
Proof.
  assert (∀ v, textContent (formatCellContent v) = v
               ∨ ∃ ls, splitPieces (splitLines v) = true
                       ∧ ls = filter (λ line, negb (isCommentLine line)) (splitLines v)
                       ∧ formatCellContent v = Pre (arrayJoin (str1 nl) ls))
    as Hcases.
  { intros v. unfold formatCellContent.
    destruct (startsWith "http://" v || startsWith "https://" v); [by left|].
    destruct (includes "//" v && includes (str1 nl) v); [|by left].
    right. eexists. split_and!; [|done..].
    apply (LineSplit_pieces v), splitLines_spec. }
  destruct (Hcases value) as [Hsame | (ls & Hpieces & Hls & Hfmt)];
    [by rewrite !Hsame|].
  rewrite Hfmt. cbn [textContent].
  set (content := arrayJoin (str1 nl) ls).
  destruct (Hcases content) as [Hsame | (ls' & _ & Hls' & ->)]; [done|].
  cbn [textContent]. destruct ls as [|q rest] eqn:Hq.
  { rewrite Hls'. subst content. reflexivity. }
  assert (splitLines content = q :: rest) as Hsplit.
  { subst content. apply splitLines_join. rewrite Hls.
    apply splitPieces_filter; [done|]. by rewrite <- Hls. }
  subst content. f_equal. rewrite Hls', Hsplit, Hls, list_filter_filter.
  apply list_filter_iff. intros line. tauto.
Qed.

(** ** The exported text determines the rows *)

Lemma tokens_quoteChar (c : ascii) (read rest : string) :
  tokens (Some read) (quoteChar c +:+ rest)
  = tokens (Some (read +:+ str1 c)) rest.
Proof. destruct c as [[] [] [] [] [] [] [] []]; reflexivity. Qed.

Lemma tokens_quoteChars (k : string) :
  ∀ read rest,
    tokens (Some read) (quoteChars k +:+ String dquote rest)
    = TStr (read +:+ k) :: tokens None rest.
Proof.
  induction k as [|c k IH]; intros read rest.
  - rewrite app_empty_r. reflexivity.
  - cbn [quoteChars]. rewrite app_assoc_str, tokens_quoteChar, IH.
    by rewrite app_assoc_str.
Qed.

Lemma tokens_quoteJSON (k rest : string) :
  tokens None (quoteJSON k +:+ rest) = TStr k :: tokens None rest.
Proof.
  unfold quoteJSON. rewrite !app_assoc_str.
  change (tokens None (str1 dquote +:+ quoteChars k +:+ str1 dquote +:+ rest))
    with (tokens (Some EmptyString) (quoteChars k +:+ String dquote rest)).
  by rewrite tokens_quoteChars.
Qed.

Lemma tokens_passedOver (pre rest : string) :
  allChars passedOver pre = true →
  tokens None (pre +:+ rest) = tokens None rest.
Proof.
  induction pre as [|c pre IH]; [done|]. intros Hall. simpl in Hall.
  apply andb_true_iff in Hall as [Hc Hpre]. rewrite app_cons. cbn [tokens].
  unfold passedOver in Hc. rewrite !andb_true_iff, !negb_true_iff in Hc.
  destruct Hc as [[-> ->] ->]. by apply IH.
Qed.

Lemma tokens_prop (kv : string * string) (rest : string) :
  tokens None (stringifyProp kv +:+ rest)
  = TStr kv.1 :: TStr kv.2 :: tokens None rest.
Proof.
  unfold stringifyProp. rewrite !app_assoc_str.
  rewrite (tokens_passedOver "    ") by reflexivity.
  rewrite tokens_quoteJSON, (tokens_passedOver ": ") by reflexivity.
  by rewrite tokens_quoteJSON.
Qed.

Lemma tokens_props (ps : Props) (rest : string) :
  tokens None (arrayJoin commaNewline (stringifyProp <$> ps) +:+ rest)
  = propTokens ps ++ tokens None rest.
Proof.
  induction ps as [|kv ps IH]; [done|]. destruct ps as [|kv' ps].
  - cbn [fmap list_fmap arrayJoin]. by rewrite tokens_prop.
  - change (stringifyProp <$> kv :: kv' :: ps)
      with (stringifyProp kv :: stringifyProp kv' :: (stringifyProp <$> ps)).
    rewrite arrayJoin_cons2.
    change (stringifyProp kv' :: (stringifyProp <$> ps))
      with (stringifyProp <$> kv' :: ps).
    rewrite !app_assoc_str, tokens_prop.
    rewrite (tokens_passedOver commaNewline) by reflexivity.
    by rewrite IH.
Qed.

Lemma tokens_row (row : Row) (rest : string) :
  tokens None (stringifyRow row +:+ rest)
  = rowTokens (props row) ++ tokens None rest.
Proof.
  unfold stringifyRow, rowTokens. destruct (props row) as [|kv ps] eqn:Hps.
  - reflexivity.
  - cbv beta iota. rewrite !app_assoc_str.
    change (tokens None ("{" +:+ str1 nl +:+ ?x)) with (TOpen :: tokens None x).
    rewrite tokens_props. cbn [app]. rewrite <- app_assoc. do 2 f_equal.
Qed.

Lemma tokens_rows (data : list Row) (rest : string) :
  allChars passedOver rest = true →
  tokens None
    (arrayJoin commaNewline ((λ row, "  " +:+ stringifyRow row) <$> data) +:+ rest)
  = data ≫= (λ row, rowTokens (props row)).
Proof.
  intros Hrest.
  assert (tokens None rest = []) as Hend.
  { rewrite <- (app_empty_r rest). by rewrite tokens_passedOver. }
  induction data as [|row data IH]; [done|]. destruct data as [|row' data].
  - cbn [fmap list_fmap arrayJoin]. rewrite app_assoc_str.
    rewrite (tokens_passedOver "  ") by reflexivity.
    rewrite tokens_row, Hend. csimpl. done.
  - set (item := λ row, "  " +:+ stringifyRow row).
    change (item <$> row :: row' :: data)
      with (item row :: item row' :: (item <$> data)).
    rewrite arrayJoin_cons2.
    change (item row' :: (item <$> data)) with (item <$> row' :: data).
    unfold item at 1. rewrite !app_assoc_str.
    rewrite (tokens_passedOver "  ") by reflexivity.
    rewrite tokens_row, (tokens_passedOver commaNewline) by reflexivity.
    fold item in IH. by rewrite IH.
Qed.

Lemma tokens_stringify (data : list Row) :
  tokens None (stringify data) = data ≫= (λ row, rowTokens (props row)).
Proof.
  unfold stringify. destruct data as [|row data]; [done|]. cbv beta iota.
  change (tokens None ("[" +:+ str1 nl +:+ ?x)) with (tokens None x).
  by apply tokens_rows.
Qed.

Lemma pairUp_flat (ps : Props) : pairUp (ps ≫= λ kv, [kv.1; kv.2]) = ps.
Proof.
  induction ps as [|[k v] ps IH]; [done|]. csimpl. by rewrite IH.
Qed.

Lemma rowsOfTokens_props (ps : Props) :
  ∀ seen ts,
    rowsOfTokens seen (propTokens ps ++ ts)
    = rowsOfTokens (seen ++ (ps ≫= λ kv, [kv.1; kv.2])) ts.
Proof.
  unfold propTokens. induction ps as [|kv ps IH]; intros seen ts.
  - csimpl. by rewrite app_nil_r.
  - csimpl. rewrite IH. by rewrite <- !app_assoc.
Qed.

Lemma rowsOfTokens_rows (data : list Row) :
  rowsOfTokens [] (data ≫= (λ row, rowTokens (props row))) = props <$> data.
Proof.
  induction data as [|row data IH]; [done|]. rewrite bind_cons, fmap_cons.
  unfold rowTokens at 1. rewrite <- app_comm_cons, <- app_assoc.
  change (rowsOfTokens [] (TOpen :: ?ts)) with (rowsOfTokens [] ts).
  rewrite rowsOfTokens_props.
  change (rowsOfTokens ?seen ([TClose] ++ ?ts))
    with (pairUp seen :: rowsOfTokens [] ts).
  by rewrite app_nil_l, pairUp_flat, IH.
Qed.

(** Reading the exported text gives the rows back. *)
Lemma readRows_stringify (data : list Row) :
  readRows (stringify data) = props <$> data.
Proof. unfold readRows. by rewrite tokens_stringify, rowsOfTokens_rows. Qed.

(** X19: the text offered for download determines the dataset: two
    datasets with the same text have the same rows, key by key and value by
    value, in the same order. *)
Theorem exported_text_determines_rows (data1 data2 : list Row) :
  stringify data1 = stringify data2 → props <$> data1 = props <$> data2.
Proof.
  intros Heq. by rewrite <- (readRows_stringify data1), Heq, readRows_stringify.
Qed.

Lemma exported_text_determines_rows_witness :
  props <$> currentData hiddenRaggedRow
  = props <$> [ {| rid := 7; props := [("Sno", "1"); ("topic", "z/OS basics");
                                       ("link", "https://example.org/1")] |};
                {| rid := 8; props := [("topic", "JCL"); ("note", "draft")] |} ].
Proof.
  apply (exported_text_determines_rows (currentData hiddenRaggedRow)).
  vm_compute. reflexivity.
Defined.




(** ** Typing in the cells *)




Lemma getProp_zip_lookup (hs vals : list string) (j : nat) (h v : string) :
  NoDup hs → hs !! j = Some h → vals !! j = Some v →
  getProp h (zip hs vals) = Some v.
Proof.
  revert vals j. induction hs as [|h0 hs IH]; intros vals j Hnd Hh Hv; [done|].
  apply NoDup_cons in Hnd as [Hfresh Hnd].
  destruct vals as [|v0 vals]; [done|]. destruct j as [|j]; simpl in *.
  - simplify_eq. by rewrite decide_True.
  - rewrite decide_False; [by eapply IH|].
    intros ->. apply Hfresh. by eapply list_elem_of_lookup_2.
Qed.

(** X22: what is typed into a cell is what a save writes.  In edit mode,
    after the cell under column [h] of a displayed row has received a
    content whose trimmed text is not empty, Escape leaves a record made of
    the trimmed texts of that table row, the typed one under [h]. *)
Theorem typed_text_is_saved (st : State) (k j : nat) (tr : TR) (h : string)
    (c : Cell) :
  wf st →
  isEditMode st = true →
  tableBody st !! k = Some tr →
  columnHeaders st !! j = Some h →
  trim (textContent c) ≠ EmptyString →
  ∃ row,
    row ∈ currentData (handleEscape (editCell k j c st))
    ∧ props row
      = zip (columnHeaders st) (<[j := trim (textContent c)]> (cellTexts tr))
    ∧ getProp h (props row) = Some (trim (textContent c)).
Proof.
  intros Hwf Hedit Hk Hh Htext.
  set (st1 := editCell k j c st).
  assert (wf st1) as Hwf1 by by apply editCell_wf.
  set (tr' := {| originalIndex := originalIndex tr; cells := <[j := c]> (cells tr) |}).
  assert (st1 = setBody (<[k := tr']> (tableBody st)) st) as Hst1.
  { unfold st1, editCell. by rewrite Hedit, Hk. }
  assert (isEditMode st1 = true) as Hedit1 by by rewrite Hst1.
  assert (columnHeaders st1 = columnHeaders st) as Hhs by by rewrite Hst1.
  assert (tr' ∈ tableBody st1) as Htr'.
  { rewrite Hst1. cbn [setBody tableBody]. apply (list_elem_of_lookup_2 _ k).
    apply list_lookup_insert_eq. by eapply lookup_lt_Some. }
  assert (length (cells tr) = length (columnHeaders st)) as Hlen.
  { pose proof (wf_cells _ Hwf) as Hcells. rewrite Forall_forall in Hcells.
    apply Hcells. by eapply list_elem_of_lookup_2. }
  destruct (reconcile_shown st1 tr' Hwf1 Htr') as [id Hid].
  set (row := readRow (columnHeaders st1) id tr') in *.
  assert (props row
          = zip (columnHeaders st) (<[j := trim (textContent c)]> (cellTexts tr)))
    as Hprops.
  { unfold row. rewrite readRow_props, Hhs.
    - unfold cellTexts. cbn [cells tr']. by rewrite list_fmap_insert.
    - apply Hwf1.
    - cbn [cells tr']. by rewrite length_insert, Hhs. }
  assert (getProp h (props row) = Some (trim (textContent c))) as Hget.
  { rewrite Hprops. apply (getProp_zip_lookup _ _ j); [apply Hwf | done |].
    apply list_lookup_insert_eq. unfold cellTexts. rewrite length_fmap, Hlen.
    by eapply lookup_lt_Some. }
  exists row. split_and!; [|done..].
  destruct (handleEscape_fields st1 Hedit1) as (-> & _). unfold updatedData.
  apply list_elem_of_filter. split.
  - apply Is_true_true, negb_true_iff. rewrite Hhs.
    destruct (isBlankRow (columnHeaders st) row) eqn:Hblank; [|done].
    apply isBlankRow_spec in Hblank. unfold BlankRow, specCell in Hblank.
    specialize (Hblank h (list_elem_of_lookup_2 _ _ _ Hh)).
    rewrite Hget in Hblank. simpl in Hblank. rewrite trim_idempotent in Hblank.
    done.
  - by eapply list_elem_of_lookup_2.
Qed.

Lemma typed_text_is_saved_witness :
  let st := editingTwoTopics in
  let tr := {| originalIndex := 0;
               cells := [Plain "1"; Plain "z/OS basics";
                         Link "https://example.org/1" "https://example.org/1"
                              "_blank" "noopener noreferrer"] |} in
  let c := Plain " z/OS in depth " in
  ∃ row,
    row ∈ currentData (handleEscape (editCell 0 1 c st))
    ∧ props row
      = zip (columnHeaders st) (<[1 := trim (textContent c)]> (cellTexts tr))
    ∧ getProp "topic" (props row) = Some (trim (textContent c)).
Proof.
  apply (typed_text_is_saved editingTwoTopics 0 1
           {| originalIndex := 0;
              cells := [Plain "1"; Plain "z/OS basics";
                        Link "https://example.org/1" "https://example.org/1"
                             "_blank" "noopener noreferrer"] |}
           "topic" (Plain " z/OS in depth ")).
  - apply Reachable_wf, Reachable_events.
  - reflexivity.
  - reflexivity.
  - reflexivity.
  - vm_compute. discriminate.
Defined.

(** ** The size of the dataset *)

(** X23: apart from the selection of a page, records are added by F6
    only, and removed by F7, one at most, and by Escape only; a click,
    typing in a cell and typing in a filter input leave the dataset as it
    is. *)
Theorem dataset_size_changes (st : State) (e : Event) :
  (∀ pageType outcome, e ≠ SelectPage pageType outcome) →
  match e with
  | KeyF6 _ => length (currentData st) ≤ length (currentData (step st e))
  | KeyF7 =>
      length (currentData (step st e)) ≤ length (currentData st)
      ∧ length (currentData st) ≤ length (currentData (step st e)) + 1
  | KeyEscape => length (currentData (step st e)) ≤ length (currentData st)
  | _ => currentData (step st e) = currentData st
  end.
Proof.
  intros Hpage. destruct e as [pt o|answer| | |k|values|k j c]; simpl.
  - by destruct (Hpage pt o).
  - destruct (isEditMode st) eqn:Hmode.
    + unfold handleF6. rewrite Hmode. simpl. destruct answer as [s|]; [|done].
      destruct (parseInt10 s) as [n|]; [|done].
      destruct (n <? 1)%Z; [done|].
      cbn [renderTableBody setBody currentData].
      rewrite addRows_currentData, length_app. lia.
    + destruct (handleF6_view_cases answer st Hmode)
        as [[_ ->] | (_ & -> & _)]; done.
  - destruct (isEditMode st) eqn:Hmode.
    + destruct (handleEscape_fields st Hmode) as (-> & _). unfold updatedData.
      etrans; [apply length_filter|]. by rewrite length_reconcile.
    + unfold handleEscape. by rewrite Hmode.
  - unfold handleF7. destruct (isEditMode st); [|simpl; lia]. simpl.
    destruct (selectedRowIndex st >? -1)%Z; [|simpl; lia].
    cbn [filterTable renderTableBody setBody setSelected setData currentData].
    rewrite delete_take_drop, length_app, length_take, length_drop. lia.
  - unfold clickRow. destruct (isEditMode st); [|done].
    by destruct (tableBody st !! k).
  - done.
  - unfold editCell. destruct (isEditMode st); [|done].
    by destruct (tableBody st !! k).
Qed.

Lemma dataset_size_changes_witness :
  let st := secondTopicSelected in
  length (currentData (step st KeyF7)) ≤ length (currentData st)
  ∧ length (currentData st) ≤ length (currentData (step st KeyF7)) + 1.
Proof.
  apply (dataset_size_changes secondTopicSelected KeyF7). discriminate.
Defined.

Lemma clicked_row_is_deleted_witness :
  let st := editingTwoTopics in
  let tr := {| originalIndex := 1;
               cells := [Plain "2"; Plain "JCL";
                         Link "https://example.org/2" "https://example.org/2"
                              "_blank" "noopener noreferrer"] |} in
  let row := {| rid := 1;
                props := [("Sno", "2"); ("topic", "JCL");
                          ("link", "https://example.org/2")] |} in
  currentData (handleF7 (clickRow 1 st)) = delete (originalIndex tr) (currentData st)
  ∧ row ∉ currentData (handleF7 (clickRow 1 st)).
Proof.
  apply (clicked_row_is_deleted editingTwoTopics 1
           {| originalIndex := 1;
              cells := [Plain "2"; Plain "JCL";
                        Link "https://example.org/2" "https://example.org/2"
                             "_blank" "noopener noreferrer"] |}
           {| rid := 1;
              props := [("Sno", "2"); ("topic", "JCL");
                        ("link", "https://example.org/2")] |}).
  - apply Reachable_wf, Reachable_events.
  - reflexivity.
  - reflexivity.
  - reflexivity.
Defined.
